(** * adonisjs-server-stats: collectors, log window and history buffer

    A shallow embedding of the TypeScript sources:
    - [src/define_config.ts]                 ([defineConfig])
    - the queue collector                    ([QueueCollector])
    - [src/collectors/db_pool_collector.ts]  ([DbPoolCollector])
    - [src/collectors/app_collector.ts]      ([AppCollector])
    - [src/collectors/log_collector.ts]      ([LogCollector])
    - the [useServerStats] hook, with the option types of
      [src/react/types.ts]                   ([UseServerStats])

    [LogStreamService], which the log collector drives, and the metrics
    scheduler, which calls the collectors, are modelled from the
    specification ([LogStreamService], [MetricsScheduler]).

    JavaScript numbers are modelled as rationals ([Q]) where they carry
    metric values or limits, clock readings in milliseconds as integers,
    array lengths and byte offsets as naturals.  A promise that is awaited
    is modelled by the way it settles. *)

From Stdlib Require Import ZArith QArith Qround Lia.
From Stdlib.Strings Require Import Byte.
From stdpp Require Import base option list strings gmap sorting.

Close Scope Q_scope.

(** ** Exceptions, promises and metric fragments *)

(** The result of evaluating an expression that may throw.  Every handler
    in the sources is a bare [catch { ... }], so the thrown value itself is
    never inspected and is not recorded. *)
Inductive Outcome (A : Type) : Type :=
| Ok (a : A)
| Throw.
Arguments Ok {A} a.
Arguments Throw {A}.

#[global] Instance Outcome_ret : MRet Outcome := fun _ a => Ok a.

#[global] Instance Outcome_bind : MBind Outcome := fun _ _ k m =>
  match m with
  | Ok a => k a
  | Throw => Throw
  end.

(** [try { body } catch { handler }] *)
Definition try_catch {A} (body : Outcome A) (handler : Outcome A) : Outcome A :=
  match body with
  | Ok a => Ok a
  | Throw => handler
  end.

(** A settled promise. *)
Inductive Promise (A : Type) : Type :=
| Fulfilled (a : A)
| Rejected.
Arguments Fulfilled {A} a.
Arguments Rejected {A}.

(** [p.then(f)] for a callback that does not throw *)
Definition then_ {A B} (p : Promise A) (f : A -> B) : Promise B :=
  match p with
  | Fulfilled a => Fulfilled (f a)
  | Rejected => Rejected
  end.

(** [p.catch(() => d)] *)
Definition catch_ {A} (p : Promise A) (d : A) : Promise A :=
  match p with
  | Fulfilled a => Fulfilled a
  | Rejected => Fulfilled d
  end.

(** [await p]: a rejection surfaces as an exception *)
Definition await {A} (p : Promise A) : Outcome A :=
  match p with
  | Fulfilled a => Ok a
  | Rejected => Throw
  end.

(** [Promise.all([p1, p2])] and [Promise.all([p1, p2, p3])] *)
Definition Promise_all2 {A B} (p1 : Promise A) (p2 : Promise B) : Promise (A * B) :=
  match p1, p2 with
  | Fulfilled a, Fulfilled b => Fulfilled (a, b)
  | _, _ => Rejected
  end.

Definition Promise_all3 {A B C} (p1 : Promise A) (p2 : Promise B) (p3 : Promise C)
  : Promise (A * B * C) :=
  match p1, p2, p3 with
  | Fulfilled a, Fulfilled b, Fulfilled c => Fulfilled (a, b, c)
  | _, _, _ => Rejected
  end.

(** [x ?? d] on a value that may be [undefined] or [null] *)
Definition nullish {A} (x : option A) (d : A) : A :=
  match x with
  | Some a => a
  | None => d
  end.
Infix "??" := nullish (at level 45, left associativity).

(** An object literal whose values are numbers: the metric fragment a
    collector returns, keys in the order they are written. *)
Definition Fragment : Type := list (string * Q).

Definition keys (f : Fragment) : list string := map fst f.

Definition zeros (ks : list string) : Fragment := map (fun k => (k, 0%Q)) ks.

Fixpoint field (k : string) (f : Fragment) : option Q :=
  match f with
  | [] => None
  | (k', v) :: f' => if String.eqb k k' then Some v else field k f'
  end.

Definition all_zero (f : Fragment) : Prop := Forall (fun kv => snd kv = 0%Q) f.

(** ** define_config.ts *)

Section DefineConfig.
(** The configuration type is declared in [src/types.ts]; [defineConfig]
    does not look inside it. *)
Variable ServerStatsConfig : Type.

Definition defineConfig (config : ServerStatsConfig) : ServerStatsConfig :=
  config.

End DefineConfig.
Arguments defineConfig {ServerStatsConfig} config.

(** ** collectors/collector.ts (interface)

    [W] is what the outside world does during one call of [collect()]: the
    outcome of the dynamic [import] the collector starts with. *)
Record MetricCollector (W : Type) : Type := {
  name : string;
  collect : W -> Outcome Fragment
}.
Arguments name {W} _.
Arguments collect {W} _ _.

(** ** collectors/queue_collector.ts *)
Module QueueCollector.

Record QueueRedisConnection : Type := {
  host : string;
  port : Z;
  password : option string
}.

Record QueueCollectorOptions : Type := {
  queueName : option string;
  connection : QueueRedisConnection
}.

(** BullMQ's side.  Only [workers.length] is read from a worker. *)
Record Worker : Type := { id : string }.

Record JobCounts : Type := {
  active : option Q;
  waiting : option Q;
  delayed : option Q;
  failed : option Q
}.

Record Queue : Type := {
  getJobCounts : Promise JobCounts;
  getWorkers : Promise (list Worker);
  close : Promise unit
}.

Record Bullmq : Type := {
  new_Queue : string -> QueueRedisConnection -> Outcome Queue
}.

Definition success_keys : list string :=
  ["queueActive"; "queueWaiting"; "queueDelayed"; "queueFailed"; "queueWorkerCount"].

Definition queueCollector (opts : QueueCollectorOptions)
  : MetricCollector (Promise Bullmq) :=
  let queueName := queueName opts ?? "default" in
  {| name := "queue";
     collect := fun import_bullmq =>
       try_catch
         (bullmq ← await import_bullmq;
          queue ← new_Queue bullmq queueName (connection opts);
          '(counts, workers) ← await (Promise_all2 (getJobCounts queue) (getWorkers queue));
          _ ← await (close queue);
          Ok [("queueActive", active counts ?? 0%Q);
              ("queueWaiting", waiting counts ?? 0%Q);
              ("queueDelayed", delayed counts ?? 0%Q);
              ("queueFailed", failed counts ?? 0%Q);
              ("queueWorkerCount", inject_Z (Z.of_nat (length workers)))])
         (Ok [("queueActive", 0%Q);
              ("queueWaiting", 0%Q);
              ("queueDelayed", 0%Q);
              ("queueFailed", 0%Q);
              ("queueWorkerCount", 0%Q)]) |}.

(** The ways the body of [collect()] can fail: every statement of the
    [try] block. *)
Inductive Failure (opts : QueueCollectorOptions) : Promise Bullmq -> Prop :=
| import_failed :
    Failure opts Rejected
| constructor_threw bullmq :
    new_Queue bullmq (queueName opts ?? "default") (connection opts) = Throw ->
    Failure opts (Fulfilled bullmq)
| getJobCounts_rejected bullmq queue :
    new_Queue bullmq (queueName opts ?? "default") (connection opts) = Ok queue ->
    getJobCounts queue = Rejected ->
    Failure opts (Fulfilled bullmq)
| getWorkers_rejected bullmq queue :
    new_Queue bullmq (queueName opts ?? "default") (connection opts) = Ok queue ->
    getWorkers queue = Rejected ->
    Failure opts (Fulfilled bullmq)
| close_rejected bullmq queue :
    new_Queue bullmq (queueName opts ?? "default") (connection opts) = Ok queue ->
    close queue = Rejected ->
    Failure opts (Fulfilled bullmq).

End QueueCollector.

(** ** collectors/db_pool_collector.ts *)
Module DbPoolCollector.

Record DbPoolCollectorOptions : Type := {
  connectionName : option string
}.

(** The Knex pool as the collector reads it: three optional methods, which
    may throw or return nothing, and the optional [max] property. *)
Record Pool : Type := {
  numUsed : option (Outcome (option Q));
  numFree : option (Outcome (option Q));
  numPendingAcquires : option (Outcome (option Q));
  max : option Q
}.

Record Client : Type := { pool : option Pool }.

Record ConnectionNode : Type := { connection : option Client }.

Record Db : Type := {
  manager_get : string -> Outcome (option ConnectionNode)
}.

(** [m?.() ?? 0] *)
Definition call_or_zero (m : option (Outcome (option Q))) : Outcome Q :=
  match m with
  | None => Ok 0%Q
  | Some call => v ← call; Ok (v ?? 0%Q)
  end.

Definition success_keys : list string :=
  ["dbPoolUsed"; "dbPoolFree"; "dbPoolPending"; "dbPoolMax"].

Definition dbPoolCollector (opts : option DbPoolCollectorOptions)
  : MetricCollector (Promise Db) :=
  let connectionName := (opts ≫= connectionName) ?? "postgres" in
  {| name := "db_pool";
     collect := fun import_db =>
       try_catch
         (db ← await import_db;
          connection ← manager_get db connectionName;
          match connection with
          | None =>
              Ok [("dbPoolUsed", 0%Q); ("dbPoolFree", 0%Q);
                  ("dbPoolPending", 0%Q); ("dbPoolMax", 0%Q)]
          | Some connection =>
              match DbPoolCollector.connection connection ≫= pool with
              | None =>
                  Ok [("dbPoolUsed", 0%Q); ("dbPoolFree", 0%Q);
                      ("dbPoolPending", 0%Q); ("dbPoolMax", 0%Q)]
              | Some pool =>
                  used ← call_or_zero (numUsed pool);
                  free ← call_or_zero (numFree pool);
                  pending ← call_or_zero (numPendingAcquires pool);
                  Ok [("dbPoolUsed", used); ("dbPoolFree", free);
                      ("dbPoolPending", pending); ("dbPoolMax", max pool ?? 0%Q)]
              end
          end)
         (Ok [("dbPoolUsed", 0%Q); ("dbPoolFree", 0%Q);
              ("dbPoolPending", 0%Q); ("dbPoolMax", 0%Q)]) |}.

Definition lookup_pool (db : Db) (opts : option DbPoolCollectorOptions)
  : Outcome (option Pool) :=
  match manager_get db ((opts ≫= connectionName) ?? "postgres") with
  | Ok c => Ok ((c ≫= connection) ≫= pool)
  | Throw => Throw
  end.

(** The ways [collect()] can find its dependency unusable. *)
Inductive Failure (opts : option DbPoolCollectorOptions) : Promise Db -> Prop :=
| import_failed :
    Failure opts Rejected
| manager_threw db :
    manager_get db ((opts ≫= connectionName) ?? "postgres") = Throw ->
    Failure opts (Fulfilled db)
| connection_missing db :
    manager_get db ((opts ≫= connectionName) ?? "postgres") = Ok None ->
    Failure opts (Fulfilled db)
| pool_missing db :
    lookup_pool db opts = Ok None ->
    Failure opts (Fulfilled db)
| counter_threw db p :
    lookup_pool db opts = Ok (Some p) ->
    numUsed p = Some Throw \/ numFree p = Some Throw \/
      numPendingAcquires p = Some Throw ->
    Failure opts (Fulfilled db).

End DbPoolCollector.

(** ** collectors/app_collector.ts *)
Module AppCollector.

(** The row [.first()] resolves to; [total] is the number [Number(r.total)]
    evaluates to when the column is present. *)
Record Row : Type := { total : option Q }.

(** [db.from(table)[.where(column, value)].count('* as total').first()]:
    building the query may throw, the query itself may reject, and it may
    find no row. *)
Record Db : Type := {
  count_first : string -> option (string * string) -> Outcome (Promise (option Row))
}.

(** [(r) => Number(r?.total ?? 0)] *)
Definition to_total (r : option Row) : Q := (r ≫= total) ?? 0%Q.

Definition success_keys : list string :=
  ["onlineUsers"; "pendingWebhooks"; "pendingEmails"].

Definition appCollector : MetricCollector (Promise Db) :=
  {| name := "app";
     collect := fun import_db =>
       try_catch
         (db ← await import_db;
          q1 ← count_first db "sessions" None;
          q2 ← count_first db "webhook_events" (Some ("status", "pending"));
          q3 ← count_first db "scheduled_emails" (Some ("status", "pending"));
          '(sessions, webhooks, emails) ←
             await (Promise_all3
                      (then_ q1 to_total)
                      (catch_ (then_ q2 to_total) 0%Q)
                      (catch_ (then_ q3 to_total) 0%Q));
          Ok [("onlineUsers", sessions);
              ("pendingWebhooks", webhooks);
              ("pendingEmails", emails)])
         (Ok [("onlineUsers", 0%Q); ("pendingWebhooks", 0%Q); ("pendingEmails", 0%Q)]) |}.

Definition sessions_query (db : Db) := count_first db "sessions" None.
Definition webhooks_query (db : Db) :=
  count_first db "webhook_events" (Some ("status", "pending")).
Definition emails_query (db : Db) :=
  count_first db "scheduled_emails" (Some ("status", "pending")).

(** A query fails when building it throws or when its promise rejects. *)
Definition query_failed (q : Outcome (Promise (option Row))) : Prop :=
  q = Throw \/ q = Ok Rejected.

(** Every internal failure of [collect()]: the import, or any one of the
    three queries. *)
Inductive Failure : Promise Db -> Prop :=
| import_failed :
    Failure Rejected
| sessions_failed db :
    query_failed (sessions_query db) -> Failure (Fulfilled db)
| webhooks_failed db :
    query_failed (webhooks_query db) -> Failure (Fulfilled db)
| emails_failed db :
    query_failed (emails_query db) -> Failure (Fulfilled db).

(** The failures that reach the outer [catch]: the import, a query that
    throws while it is built, and the [sessions] query, the only one
    without a [.catch] of its own. *)
Inductive OuterFailure : Promise Db -> Prop :=
| outer_import :
    OuterFailure Rejected
| outer_sessions db :
    query_failed (sessions_query db) -> OuterFailure (Fulfilled db)
| outer_webhooks_threw db :
    webhooks_query db = Throw -> OuterFailure (Fulfilled db)
| outer_emails_threw db :
    emails_query db = Throw -> OuterFailure (Fulfilled db).

End AppCollector.

(** ** log_stream/log_stream_service.ts

    The class is imported by [collectors/log_collector.ts] but its file is
    not among the sources at hand; it is modelled from the specification of
    the log-window analyzer (sections 3, 4.2 and 8). *)
Module LogStreamService.

(** Modelled from the spec: the data model of section 3, whose declarations
    are missing: [LogEvent] with its severity, [TailCursor], and the
    statistics record of [getStats()]. *)
Inductive Severity : Type := trace | debug | info | warn | error | fatal.

#[global] Instance Severity_eq_dec : EqDecision Severity.
Proof. solve_decision. Defined.

Record LogEvent : Type := {
  timestamp : Z;
  severity : Severity
}.

Record TailCursor : Type := {
  filePath : string;
  byteOffset : nat;
  lastKnownSize : nat
}.

(** Modelled from the spec: the states of the analyzer's state machine,
    [Stopped -> Starting -> Running -> Stopped]. *)
Inductive Phase : Type := Stopped | Starting | Running.

Record LogStats : Type := {
  errorsLast5m : nat;
  warningsLast5m : nat;
  entriesLast5m : nat;
  entriesPerMinute : Q
}.

(** Modelled from the spec: the missing analyzer object, its tail cursor
    and its window, a queue ordered by arrival. *)
Record t : Type := {
  phase : Phase;
  cursor : TailCursor;
  window : list LogEvent
}.

(** Modelled from the spec: the constructor [new LogStreamService(logPath)],
    which is missing; a stopped analyzer with a zero cursor and an empty
    window. *)
Definition new (logPath : string) : t :=
  {| phase := Stopped;
     cursor := {| filePath := logPath; byteOffset := 0; lastKnownSize := 0 |};
     window := [] |}.

(** Modelled from the spec: the retention window of 300_000 ms. *)
Definition WINDOW_MS : Z := 300000.

(** Modelled from the spec: the missing prune step, "drop every LogEvent
    whose timestamp is older than (now - 300_000 ms)". *)
Definition older_than_window (now : Z) (e : LogEvent) : Prop :=
  (timestamp e < now - WINDOW_MS)%Z.

#[global] Instance older_than_window_dec now e : Decision (older_than_window now e).
Proof. unfold older_than_window. apply _. Defined.

(** Modelled from the spec: the missing prune step keeps the other events
    in their order. *)
Definition prune (now : Z) (w : list LogEvent) : list LogEvent :=
  filter (fun e => ¬ older_than_window now e) w.

(** Modelled from the spec: the severities counted by [errorsLast5m]
    (error and fatal) and by [warningsLast5m] (warn). *)
Definition is_error (e : LogEvent) : Prop :=
  severity e = error \/ severity e = fatal.

Definition is_warning (e : LogEvent) : Prop := severity e = warn.

#[global] Instance is_error_dec e : Decision (is_error e).
Proof. unfold is_error. apply _. Defined.

#[global] Instance is_warning_dec e : Decision (is_warning e).
Proof. unfold is_warning. apply _. Defined.

(** Modelled from the spec: the missing [getLogStats()] (the spec's
    [getStats()]), "computed by pruning then counting over the current
    window"; [now] is the clock reading of the call. *)
Definition getLogStats (now : Z) (s : t) : LogStats * t :=
  let w := prune now (window s) in
  ({| errorsLast5m := length (filter is_error w);
      warningsLast5m := length (filter is_warning w);
      entriesLast5m := length w;
      entriesPerMinute := (inject_Z (Z.of_nat (length w)) / 5)%Q |},
   {| phase := phase s; cursor := cursor s; window := w |}).

(** Modelled from the spec: the missing [start()], which ends in [Running]
    whether or not the file exists yet. *)
Definition start (s : t) : t :=
  {| phase := Running; cursor := cursor s; window := window s |}.

(** Modelled from the spec: the missing [stop()]; idempotent. *)
Definition stop (s : t) : t :=
  {| phase := Stopped; cursor := cursor s; window := window s |}.

(** *** Tailing *)

(** Modelled from the spec: the line terminator of newline-delimited
    JSON. *)
Definition newline : byte := x0a.

#[global] Instance byte_eq_dec : EqDecision byte := Byte.byte_eq_dec.

(** Modelled from the spec: the missing line splitter of the poll, step 3:
    the complete (terminator-ended) lines of a byte range, without their
    terminators, and the trailing partial line. *)
Fixpoint split_lines (bs : list byte) : list (list byte) * list byte :=
  match bs with
  | [] => ([], [])
  | b :: bs' =>
      let '(lines, partial) := split_lines bs' in
      if decide (b = newline) then ([] :: lines, partial)
      else match lines with
           | [] => ([], b :: partial)
           | l :: lines' => ((b :: l) :: lines', partial)
           end
  end.

(** The bytes that a list of complete lines occupies in the file. *)
Definition unsplit (lines : list (list byte)) : list byte :=
  mjoin (map (fun l => l ++ [newline]) lines).

(** Modelled from the spec: step 1 of the missing poll operation, where
    reading starts: at 0 when the file is smaller than [lastKnownSize], at
    [byteOffset] otherwise. *)
Definition read_from (currentSize : nat) (c : TailCursor) : nat :=
  if decide (currentSize < lastKnownSize c) then 0 else byteOffset c.

Section Tail.
(** Parsing one line as a structured record (JSON with a severity and a
    millisecond timestamp); [None] for a line that fails to parse or lacks
    a required field. *)
Variable parse_line : list byte -> option LogEvent.

(** Modelled from the spec: steps 1 to 4 of the missing poll operation.
    The file is [None] while it does not exist.  The cursor restarts at 0
    when the file shrank, only the range from [byteOffset] to the current
    size is read, and [byteOffset] advances past the complete lines only,
    so that the bytes of a trailing partial line are read again. *)
Definition ingest (file : option (list byte)) (c : TailCursor)
  : TailCursor * list LogEvent :=
  match file with
  | None =>
      ({| filePath := filePath c; byteOffset := 0; lastKnownSize := 0 |}, [])
  | Some bytes =>
      let currentSize := length bytes in
      let from := read_from currentSize c in
      let range := drop from bytes in
      let '(lines, partial) := split_lines range in
      ({| filePath := filePath c;
          byteOffset := from + (length range - length partial);
          lastKnownSize := currentSize |},
       omap parse_line lines)
  end.

(** Modelled from the spec: the missing poll operation, steps 5 and 6
    after [ingest]: append the parsed events, then prune. *)
Definition poll (now : Z) (file : option (list byte)) (s : t) : t :=
  let '(c, events) := ingest file (cursor s) in
  {| phase := phase s; cursor := c; window := prune now (window s ++ events) |}.

(** Everything a file holds in complete lines, and where they end. *)
Definition events_of (bytes : list byte) : list LogEvent :=
  omap parse_line (fst (split_lines bytes)).

Definition complete_length (bytes : list byte) : nat :=
  length bytes - length (snd (split_lines bytes)).

(** The cursor has consumed exactly the complete lines of [bytes]. *)
Definition caught_up (bytes : list byte) (c : TailCursor) : Prop :=
  byteOffset c = complete_length bytes /\ lastKnownSize c = length bytes.

(** One poll after each append to the file; the events of every poll. *)
Fixpoint tail_appends (bytes : list byte) (c : TailCursor) (appends : list (list byte))
  : list byte * TailCursor * list LogEvent :=
  match appends with
  | [] => (bytes, c, [])
  | a :: appends' =>
      let '(c', events) := ingest (Some (bytes ++ a)) c in
      let '(bytes', c'', events') := tail_appends (bytes ++ a) c' appends' in
      (bytes', c'', events ++ events')
  end.

End Tail.

End LogStreamService.

(** ** collectors/log_collector.ts *)
Module LogCollector.

Record LogCollectorOptions : Type := { logPath : string }.

(** Objects live in a heap; a [LogStreamService] reference is its index. *)
Definition ref : Type := nat.

(** The state the module functions work on: the module-level variable
    [sharedLogStream] and the analyzer objects created so far. *)
Record Process : Type := {
  sharedLogStream : option ref;
  heap : list LogStreamService.t
}.

(** [let sharedLogStream: LogStreamService | null = null] *)
Definition initial : Process := {| sharedLogStream := None; heap := [] |}.

Definition getLogStreamService (p : Process) : option ref := sharedLogStream p.

(** The collector object; its methods close over [service]. *)
Record LogMetricCollector : Type := {
  name : string;
  service : ref
}.

Definition logCollector (opts : LogCollectorOptions) (p : Process)
  : LogMetricCollector * Process :=
  let service := length (heap p) in
  ({| name := "log"; service := service |},
   {| sharedLogStream := Some service;
      heap := heap p ++ [LogStreamService.new (logPath opts)] |}).

Definition with_service (c : LogMetricCollector) (f : LogStreamService.t -> LogStreamService.t)
    (p : Process) : Process :=
  {| sharedLogStream := sharedLogStream p;
     heap := alter f (service c) (heap p) |}.

Definition start (c : LogMetricCollector) : Process -> Process :=
  with_service c LogStreamService.start.

Definition stop (c : LogMetricCollector) : Process -> Process :=
  with_service c LogStreamService.stop.

(** The object literal [collect()] returns. *)
Definition fragment_of (stats : LogStreamService.LogStats) : Fragment :=
  [("logErrorsLast5m", inject_Z (Z.of_nat (LogStreamService.errorsLast5m stats)));
   ("logWarningsLast5m", inject_Z (Z.of_nat (LogStreamService.warningsLast5m stats)));
   ("logEntriesLast5m", inject_Z (Z.of_nat (LogStreamService.entriesLast5m stats)));
   ("logEntriesPerMinute", LogStreamService.entriesPerMinute stats)].

(** [collect()] at clock reading [now]; [None] only for a dangling
    reference, which [logCollector] never produces. *)
Definition collect (c : LogMetricCollector) (now : Z) (p : Process)
  : option (Fragment * Process) :=
  s ← heap p !! service c;
  let '(stats, s') := LogStreamService.getLogStats now s in
  Some (fragment_of stats,
        {| sharedLogStream := sharedLogStream p;
           heap := <[service c := s']> (heap p) |}).

(** Successive calls of [logCollector()], with the collectors returned. *)
Fixpoint logCollectors (calls : list LogCollectorOptions) (p : Process)
  : list LogMetricCollector * Process :=
  match calls with
  | [] => ([], p)
  | opts :: calls' =>
      let '(c, p') := logCollector opts p in
      let '(cs, p'') := logCollectors calls' p' in
      (c :: cs, p'')
  end.

End LogCollector.

(** ** The [useServerStats] hook *)
Module UseServerStats.

Definition DEFAULT_MAX_HISTORY : Q := 60.

Record UseServerStatsOptions : Type := {
  endpoint : option string;
  channel : option string;
  maxHistory : option Q;
  staleTimeout : option Q
}.

(** [opts?.maxHistory ?? DEFAULT_MAX_HISTORY] *)
Definition resolved_maxHistory (opts : option UseServerStatsOptions) : Q :=
  (opts ≫= maxHistory) ?? DEFAULT_MAX_HISTORY.

Section Hook.
Variable ServerStats : Type.

(** [h.shift()]: removes the first element; nothing to remove from [[]]. *)
Definition shift (h : list ServerStats) : list ServerStats := tail h.

(** The callback [pushHistory] on the array held by [historyRef]. *)
Definition pushHistory (maxHistory : Q) (s : ServerStats) (h : list ServerStats)
  : list ServerStats :=
  let h := h ++ [s] in
  if Qlt_le_dec maxHistory (inject_Z (Z.of_nat (length h))) then shift h else h.

(** The history after the snapshots [delivered], in order of arrival (the
    initial HTTP response and the SSE messages both end in
    [pushHistory]); [historyRef] starts as [[]]. *)
Definition history (opts : option UseServerStatsOptions) (delivered : list ServerStats)
  : list ServerStats :=
  let maxHistory := resolved_maxHistory opts in
  foldl (fun h s => pushHistory maxHistory s h) [] delivered.

End Hook.

End UseServerStats.

(** ** The data-fetching sources, taken together *)

(** One call of [collect()] on one of the three data fetchers: the
    collector's options and what its dynamic import resolves to. *)
Inductive Source : Type :=
| QueueSource (opts : QueueCollector.QueueCollectorOptions)
    (import_bullmq : Promise QueueCollector.Bullmq)
| DbPoolSource (opts : option DbPoolCollector.DbPoolCollectorOptions)
    (import_db : Promise DbPoolCollector.Db)
| AppSource (import_db : Promise AppCollector.Db).

Definition source_collect (s : Source) : Outcome Fragment :=
  match s with
  | QueueSource opts w => collect (QueueCollector.queueCollector opts) w
  | DbPoolSource opts w => collect (DbPoolCollector.dbPoolCollector opts) w
  | AppSource w => collect AppCollector.appCollector w
  end.

(** The keys of the fragment returned on the success path. *)
Definition source_keys (s : Source) : list string :=
  match s with
  | QueueSource _ _ => QueueCollector.success_keys
  | DbPoolSource _ _ => DbPoolCollector.success_keys
  | AppSource _ => AppCollector.success_keys
  end.

(** Any internal failure of [collect()]. *)
Inductive InternalFailure : Source -> Prop :=
| queue_failure opts w :
    QueueCollector.Failure opts w -> InternalFailure (QueueSource opts w)
| db_pool_failure opts w :
    DbPoolCollector.Failure opts w -> InternalFailure (DbPoolSource opts w)
| app_failure w :
    AppCollector.Failure w -> InternalFailure (AppSource w).

(** The failures handled by the collector's outer [catch] or by one of its
    explicit zero returns. *)
Inductive TotalFailure : Source -> Prop :=
| queue_total opts w :
    QueueCollector.Failure opts w -> TotalFailure (QueueSource opts w)
| db_pool_total opts w :
    DbPoolCollector.Failure opts w -> TotalFailure (DbPoolSource opts w)
| app_total w :
    AppCollector.OuterFailure w -> TotalFailure (AppSource w).

(** The metrics a failure takes away: all of them for a total failure, and
    its own metric for a rejected [webhook_events] or [scheduled_emails]
    query of the app collector. *)
Inductive MetricLost : Source -> string -> Prop :=
| lost_all s k :
    TotalFailure s -> k ∈ source_keys s -> MetricLost s k
| lost_webhooks db :
    AppCollector.webhooks_query db = Ok Rejected ->
    MetricLost (AppSource (Fulfilled db)) "pendingWebhooks"
| lost_emails db :
    AppCollector.emails_query db = Ok Rejected ->
    MetricLost (AppSource (Fulfilled db)) "pendingEmails".

(** A database whose [webhook_events] query rejects while the other two
    tables count five rows each. *)
Definition db_without_webhooks : AppCollector.Db :=
  {| AppCollector.count_first := fun table _ =>
       if String.eqb table "webhook_events" then Ok Rejected
       else Ok (Fulfilled (Some {| AppCollector.total := Some (5 # 1)%Q |})) |}.

(** A BullMQ module whose queue cannot be reached. *)
Definition bullmq_unreachable : QueueCollector.Bullmq :=
  {| QueueCollector.new_Queue := fun _ _ =>
       Ok {| QueueCollector.getJobCounts := Rejected;
             QueueCollector.getWorkers := Fulfilled [];
             QueueCollector.close := Fulfilled tt |} |}.

Definition local_queue : QueueCollector.QueueCollectorOptions :=
  {| QueueCollector.queueName := None;
     QueueCollector.connection :=
       {| QueueCollector.host := "localhost";
          QueueCollector.port := 6379;
          QueueCollector.password := None |} |}.

(** ** Example inputs for the log tail *)

(** A small line format for the examples: a severity letter ([E], [W] or
    [I]) followed by the timestamp in decimal digits. *)
Definition digit (b : byte) : option Z :=
  let n := Z.of_N (Byte.to_N b) in
  if decide (48 <= n <= 57)%Z then Some (n - 48)%Z else None.

Fixpoint decimal (acc : Z) (bs : list byte) : option Z :=
  match bs with
  | [] => Some acc
  | b :: bs' =>
      match digit b with
      | Some d => decimal (10 * acc + d)%Z bs'
      | None => None
      end
  end.

Definition letter_severity (b : byte) : option LogStreamService.Severity :=
  if decide (b = x45) then Some LogStreamService.error
  else if decide (b = x57) then Some LogStreamService.warn
  else if decide (b = x49) then Some LogStreamService.info
  else None.

Definition parse_letter_line (line : list byte) : option LogStreamService.LogEvent :=
  match line with
  | b :: (d :: _) as digits =>
      match letter_severity b, decimal 0 digits with
      | Some sev, Some t =>
          Some {| LogStreamService.timestamp := t; LogStreamService.severity := sev |}
      | _, _ => None
      end
  | _ => None
  end.

Definition bytes_of (s : string) : list byte := String.list_byte_of_string s.

Definition fresh_cursor : LogStreamService.TailCursor :=
  LogStreamService.cursor (LogStreamService.new "logs/adonisjs.log").

(** ** The queue collector's calls into BullMQ *)
Module QueueCalls.

(** The operations [collect()] performs on BullMQ, in the order it starts
    them. *)
Inductive Call : Type :=
| ImportBullmq
| NewQueue (queueName : string) (connection : QueueCollector.QueueRedisConnection)
| GetJobCounts
| GetWorkers
| Close.

#[global] Instance QueueRedisConnection_eq_dec :
  EqDecision QueueCollector.QueueRedisConnection.
Proof. solve_decision. Defined.

#[global] Instance Call_eq_dec : EqDecision Call.
Proof. solve_decision. Defined.

(** Sequencing of steps that record the calls they start: a step that
    throws ends the sequence. *)
Definition and_then {A B} (m : list Call * Outcome A)
    (k : A -> list Call * Outcome B) : list Call * Outcome B :=
  match m with
  | (calls, Ok a) => let '(calls', r) := k a in (calls ++ calls', r)
  | (calls, Throw) => (calls, Throw)
  end.

(** [collect()] of the queue collector together with the calls it made.
    Both fetches are started before [Promise.all] is awaited. *)
Definition collect_with_calls (opts : QueueCollector.QueueCollectorOptions)
    (import_bullmq : Promise QueueCollector.Bullmq) : list Call * Outcome Fragment :=
  let queueName := QueueCollector.queueName opts ?? "default" in
  let '(calls, body) :=
    and_then ([ImportBullmq], await import_bullmq) (fun bullmq =>
    and_then ([NewQueue queueName (QueueCollector.connection opts)],
              QueueCollector.new_Queue bullmq queueName (QueueCollector.connection opts))
      (fun queue =>
    and_then ([GetJobCounts; GetWorkers],
              await (Promise_all2 (QueueCollector.getJobCounts queue)
                                  (QueueCollector.getWorkers queue)))
      (fun '(counts, workers) =>
    and_then ([Close], await (QueueCollector.close queue)) (fun _ =>
    ([], Ok [("queueActive", QueueCollector.active counts ?? 0%Q);
             ("queueWaiting", QueueCollector.waiting counts ?? 0%Q);
             ("queueDelayed", QueueCollector.delayed counts ?? 0%Q);
             ("queueFailed", QueueCollector.failed counts ?? 0%Q);
             ("queueWorkerCount", inject_Z (Z.of_nat (length workers)))]))))) in
  (calls,
   try_catch body
     (Ok [("queueActive", 0%Q);
          ("queueWaiting", 0%Q);
          ("queueDelayed", 0%Q);
          ("queueFailed", 0%Q);
          ("queueWorkerCount", 0%Q)])).

End QueueCalls.

(** ** The [useServerStats] hook: state and callbacks *)
Module Hook.

Definition DEFAULT_ENDPOINT : string := "/admin/api/server-stats".

Section Hook.
(** The snapshot type of [src/types.ts] and its [timestamp] field. *)
Variable ServerStats : Type.
Variable timestamp : ServerStats -> Q.

(** [axios.get(endpoint)], reduced to the [data] of its response. *)
Record Axios : Type := { get : string -> Promise ServerStats }.

(** The two state cells and the two refs. *)
Record State : Type := {
  stats : option ServerStats;
  stale : bool;
  timestampRef : Q;
  historyRef : list ServerStats
}.

(** [useState(null)], [useState(false)], [useRef(0)], [useRef([])] *)
Definition mounted : State :=
  {| stats := None; stale := false; timestampRef := 0%Q; historyRef := [] |}.

(** What reaches the hook from outside: [fetchStats] of the first effect
    settles (with the [cancelled] flag of its closure), or the subscription
    of the second effect delivers a message.  The timeout of the third
    effect, which alone sets [stale], is not part of this model. *)
Inductive Event : Type :=
| FetchSettled (cancelled : bool) (import_axios : Promise Axios)
| Message (message : ServerStats).

Definition step (opts : option UseServerStats.UseServerStatsOptions)
    (st : State) (e : Event) : State :=
  let endpoint := (opts ≫= UseServerStats.endpoint) ?? DEFAULT_ENDPOINT in
  let maxHistory := UseServerStats.resolved_maxHistory opts in
  match e with
  | FetchSettled cancelled import_axios =>
      match axios ← await import_axios; await (get axios endpoint) with
      | Ok data =>
          if cancelled then st
          else {| stats := Some data;
                  stale := stale st;
                  timestampRef := timestamp data;
                  historyRef :=
                    UseServerStats.pushHistory ServerStats maxHistory data (historyRef st) |}
      | Throw => st
      end
  | Message message =>
      {| stats := Some message;
         stale := false;
         timestampRef := timestamp message;
         historyRef :=
           UseServerStats.pushHistory ServerStats maxHistory message (historyRef st) |}
  end.

Definition run (opts : option UseServerStats.UseServerStatsOptions)
    (events : list Event) : State :=
  foldl (step opts) mounted events.

(** The snapshot an event delivers to the hook, if any. *)
Definition delivery (opts : option UseServerStats.UseServerStatsOptions)
    (e : Event) : option ServerStats :=
  match e with
  | FetchSettled false (Fulfilled axios) =>
      match get axios ((opts ≫= UseServerStats.endpoint) ?? DEFAULT_ENDPOINT) with
      | Fulfilled data => Some data
      | Rejected => None
      end
  | Message message => Some message
  | FetchSettled _ _ => None
  end.

End Hook.

End Hook.

(** ** Operations on log collectors *)
Module LogOps.

(** What the application can do with the log collector module: create a
    collector, or call a method of one. *)
Inductive Op : Type :=
| Create (opts : LogCollector.LogCollectorOptions)
| Start (c : LogCollector.LogMetricCollector)
| Stop (c : LogCollector.LogMetricCollector)
| Collect (c : LogCollector.LogMetricCollector) (now : Z).

Definition apply (op : Op) (p : LogCollector.Process) : LogCollector.Process :=
  match op with
  | Create opts => snd (LogCollector.logCollector opts p)
  | Start c => LogCollector.start c p
  | Stop c => LogCollector.stop c p
  | Collect c now =>
      match LogCollector.collect c now p with
      | Some (_, p') => p'
      | None => p
      end
  end.

(** The operation is a method call on collector [c]. *)
Definition targets (op : Op) (c : LogCollector.LogMetricCollector) : Prop :=
  match op with
  | Create _ => False
  | Start c' | Stop c' | Collect c' _ => LogCollector.service c' = LogCollector.service c
  end.

End LogOps.

(** ** Example inputs for the db-pool collector *)

Definition busy_pool : DbPoolCollector.ConnectionNode :=
  {| DbPoolCollector.connection :=
       Some {| DbPoolCollector.pool :=
                 Some {| DbPoolCollector.numUsed := Some (Ok (Some 2%Q));
                         DbPoolCollector.numFree := Some (Ok (Some 8%Q));
                         DbPoolCollector.numPendingAcquires := None;
                         DbPoolCollector.max := Some 10%Q |} |} |}.

(** Two databases with the same [postgres] connection; the second cannot
    look up any other name. *)
Definition db_postgres_only : DbPoolCollector.Db :=
  {| DbPoolCollector.manager_get := fun name =>
       if String.eqb name "postgres" then Ok (Some busy_pool) else Ok None |}.

Definition db_postgres_else_throws : DbPoolCollector.Db :=
  {| DbPoolCollector.manager_get := fun name =>
       if String.eqb name "postgres" then Ok (Some busy_pool) else Throw |}.

(** ** The metrics scheduler

    The engine that ticks, fans out to the collectors and publishes
    snapshots is not among the sources at hand; it is modelled from the
    specification (sections 3, 4.1 and 5). *)
Module MetricsScheduler.

(** Modelled from the spec: the missing Snapshot of section 3, a mapping
    from metric name to value with its [timestamp] in milliseconds. *)
Record Snapshot : Type := {
  timestamp : Z;
  metrics : gmap string Q
}.

(** Modelled from the spec: the missing merge of a tick: a Source that
    failed contributes the empty mapping, and the fragments are merged left
    to right in registration order, the last Source winning a key. *)
Definition contribution (result : Outcome Fragment) : Fragment :=
  match result with
  | Ok fragment => fragment
  | Throw => []
  end.

Definition merge (results : list (Outcome Fragment)) : gmap string Q :=
  foldl (fun merged result =>
           foldl (fun m kv => <[fst kv := snd kv]> m) merged (contribution result))
        ∅ results.

(** Modelled from the spec: the missing scheduler state: whether the tick
    timer is set, how many fan-outs are running, the history ring with its
    capacity, and what was handed to the Broadcaster, oldest first. *)
Record t : Type := {
  historyCapacity : nat;
  running : bool;
  in_flight : nat;
  history : list Snapshot;
  published : list Snapshot
}.

(** Modelled from the spec: the scheduler after the missing [start()]. *)
Definition started (historyCapacity : nat) : t :=
  {| historyCapacity := historyCapacity; running := true; in_flight := 0;
     history := []; published := [] |}.

(** Modelled from the spec: what happens to a started scheduler: its timer
    fires, the fan-out of the tick in flight has settled for every Source
    (with the wall-clock reading [now] taken at the merge), or [stop()] is
    called. *)
Inductive Event : Type :=
| TimerFire
| FanOutDone (now : Z) (results : list (Outcome Fragment))
| Stop.

(** Modelled from the spec: the missing push into the history ring,
    "evicting the oldest entry if at capacity". *)
Definition push_history (capacity : nat) (s : Snapshot) (h : list Snapshot)
  : list Snapshot :=
  let h := h ++ [s] in
  if decide (capacity < length h) then drop 1 h else h.

(** Modelled from the spec: the missing tick and its overlap policy.  A
    timer firing starts a fan-out unless one is running, in which case the
    tick is skipped and nothing is remembered of it.  When the fan-out has
    settled the results are merged, stamped with the clock reading, pushed
    into the history and handed to the Broadcaster; after [stop()] the
    timer no longer starts ticks and the result of a tick still in flight
    is discarded. *)
Definition step (s : t) (e : Event) : t :=
  match e with
  | TimerFire =>
      if running s && bool_decide (in_flight s = 0)
      then {| historyCapacity := historyCapacity s; running := running s;
              in_flight := S (in_flight s);
              history := history s; published := published s |}
      else s
  | FanOutDone now results =>
      match in_flight s with
      | 0 => s
      | S others =>
          if running s
          then let snapshot := {| timestamp := now; metrics := merge results |} in
               {| historyCapacity := historyCapacity s; running := running s;
                  in_flight := others;
                  history := push_history (historyCapacity s) snapshot (history s);
                  published := published s ++ [snapshot] |}
          else {| historyCapacity := historyCapacity s; running := running s;
                  in_flight := others;
                  history := history s; published := published s |}
      end
  | Stop =>
      {| historyCapacity := historyCapacity s; running := false;
         in_flight := in_flight s;
         history := history s; published := published s |}
  end.

Definition run (historyCapacity : nat) (events : list Event) : t :=
  foldl step (started historyCapacity) events.


End MetricsScheduler.

(** * Properties *)

(** ** Fragments *)

Lemma keys_zeros ks : keys (zeros ks) = ks.
Proof.
  unfold keys, zeros. rewrite map_map. simpl. apply map_id.
Qed.

Lemma all_zero_zeros ks : all_zero (zeros ks).
Proof.
  unfold all_zero, zeros. apply Forall_forall. intros kv Hin.
  apply list_elem_of_fmap in Hin as [k [-> _]]. reflexivity.
Qed.

Lemma field_zeros k ks : k ∈ ks -> field k (zeros ks) = Some 0%Q.
Proof.
  induction ks as [|k' ks IH]; intros Hin.
  - inversion Hin.
  - simpl. destruct (String.eqb k k') eqn:E; [reflexivity|].
    apply IH. apply elem_of_cons in Hin as [->|H]; [|exact H].
    rewrite String.eqb_refl in E. discriminate.
Qed.

(** ** define_config.ts *)

(** C10: [defineConfig] is the identity on configurations: it returns its
    argument itself, whatever the configuration type holds; no field is
    filled in and no configuration is refused. *)
Theorem defineConfig_identity (ServerStatsConfig : Type) (c : ServerStatsConfig) :
  defineConfig c = c /\
  (forall (B : Type) (read : ServerStatsConfig -> B),
     read (defineConfig c) = read c).
Proof.
  split; [reflexivity | intros B f; reflexivity].
Qed.

(** ** The collectors' failure paths *)

Lemma queue_failure_zeros opts w :
  QueueCollector.Failure opts w ->
  collect (QueueCollector.queueCollector opts) w
  = Ok (zeros QueueCollector.success_keys).
Proof.
  intros H. unfold QueueCollector.queueCollector; simpl.
  destruct H as [ | bullmq Hq | bullmq queue Hq Hc | bullmq queue Hq Hw
                | bullmq queue Hq Hc ]; simpl.
  - reflexivity.
  - rewrite Hq. reflexivity.
  - rewrite Hq; simpl. rewrite Hc. reflexivity.
  - rewrite Hq; simpl. rewrite Hw.
    destruct (QueueCollector.getJobCounts queue); reflexivity.
  - rewrite Hq; simpl. rewrite Hc.
    destruct (QueueCollector.getJobCounts queue), (QueueCollector.getWorkers queue);
      reflexivity.
Qed.

Lemma queue_collect_total opts w :
  exists fragment,
    collect (QueueCollector.queueCollector opts) w = Ok fragment /\
    keys fragment = QueueCollector.success_keys.
Proof.
  unfold QueueCollector.queueCollector; simpl.
  destruct w as [bullmq|]; simpl; [|eexists; split; reflexivity].
  destruct (QueueCollector.new_Queue bullmq _ _) as [queue|]; simpl;
    [|eexists; split; reflexivity].
  destruct (QueueCollector.getJobCounts queue), (QueueCollector.getWorkers queue),
    (QueueCollector.close queue); simpl; eexists; split; reflexivity.
Qed.

Lemma call_or_zero_cases m :
  DbPoolCollector.call_or_zero m = Throw /\ m = Some Throw \/
  exists v, DbPoolCollector.call_or_zero m = Ok v.
Proof.
  destruct m as [[v|]|]; simpl; eauto.
Qed.

Lemma db_pool_failure_zeros opts w :
  DbPoolCollector.Failure opts w ->
  collect (DbPoolCollector.dbPoolCollector opts) w
  = Ok (zeros DbPoolCollector.success_keys).
Proof.
  intros H. unfold DbPoolCollector.dbPoolCollector; simpl.
  destruct H as [ | db Hg | db Hg | db Hp | db p Hp Hc ]; simpl.
  - reflexivity.
  - rewrite Hg. reflexivity.
  - rewrite Hg. reflexivity.
  - unfold DbPoolCollector.lookup_pool in Hp.
    destruct (DbPoolCollector.manager_get db _) as [[c|]|]; simpl in *;
      try reflexivity; try discriminate.
    injection Hp as Hp. rewrite Hp. reflexivity.
  - unfold DbPoolCollector.lookup_pool in Hp.
    destruct (DbPoolCollector.manager_get db _) as [[c|]|]; simpl in *;
      try reflexivity; try discriminate.
    injection Hp as Hp. rewrite Hp.
    destruct Hc as [Hc | [Hc | Hc]]; rewrite Hc; simpl.
    + reflexivity.
    + destruct (DbPoolCollector.call_or_zero (DbPoolCollector.numUsed p));
        reflexivity.
    + destruct (DbPoolCollector.call_or_zero (DbPoolCollector.numUsed p)),
        (DbPoolCollector.call_or_zero (DbPoolCollector.numFree p)); reflexivity.
Qed.

Lemma db_pool_collect_total opts w :
  exists fragment,
    collect (DbPoolCollector.dbPoolCollector opts) w = Ok fragment /\
    keys fragment = DbPoolCollector.success_keys.
Proof.
  unfold DbPoolCollector.dbPoolCollector; simpl.
  destruct w as [db|]; simpl; [|eexists; split; reflexivity].
  destruct (DbPoolCollector.manager_get db _) as [[c|]|]; simpl;
    try (eexists; split; reflexivity).
  destruct (DbPoolCollector.connection c ≫= DbPoolCollector.pool) as [p|]; simpl;
    try (eexists; split; reflexivity).
  destruct (DbPoolCollector.call_or_zero (DbPoolCollector.numUsed p)),
    (DbPoolCollector.call_or_zero (DbPoolCollector.numFree p)),
    (DbPoolCollector.call_or_zero (DbPoolCollector.numPendingAcquires p));
    simpl; eexists; split; reflexivity.
Qed.

Lemma app_outer_failure_zeros w :
  AppCollector.OuterFailure w ->
  collect AppCollector.appCollector w = Ok (zeros AppCollector.success_keys).
Proof.
  intros H. unfold AppCollector.appCollector; simpl.
  destruct H as [ | db [Hs | Hs] | db Hw | db He ]; simpl;
    unfold AppCollector.sessions_query, AppCollector.webhooks_query,
      AppCollector.emails_query in *.
  - reflexivity.
  - rewrite Hs. reflexivity.
  - rewrite Hs; simpl.
    destruct (AppCollector.count_first db "webhook_events" _) as [q2|]; simpl;
      [|reflexivity].
    destruct (AppCollector.count_first db "scheduled_emails" _) as [q3|]; simpl;
      reflexivity.
  - rewrite Hw.
    destruct (AppCollector.count_first db "sessions" _); reflexivity.
  - rewrite He.
    destruct (AppCollector.count_first db "sessions" _) as [q1|]; simpl;
      [|reflexivity].
    destruct (AppCollector.count_first db "webhook_events" _); reflexivity.
Qed.

(** The app collector on the path where all three queries are built: only
    a rejected [sessions] query reaches the outer [catch]. *)
Lemma app_collect_built db q1 q2 q3 :
  AppCollector.sessions_query db = Ok q1 ->
  AppCollector.webhooks_query db = Ok q2 ->
  AppCollector.emails_query db = Ok q3 ->
  collect AppCollector.appCollector (Fulfilled db) =
    match q1 with
    | Fulfilled r1 =>
        Ok [("onlineUsers", AppCollector.to_total r1);
            ("pendingWebhooks",
              match q2 with Fulfilled r2 => AppCollector.to_total r2 | Rejected => 0%Q end);
            ("pendingEmails",
              match q3 with Fulfilled r3 => AppCollector.to_total r3 | Rejected => 0%Q end)]
    | Rejected => Ok (zeros AppCollector.success_keys)
    end.
Proof.
  unfold AppCollector.sessions_query, AppCollector.webhooks_query,
    AppCollector.emails_query, AppCollector.appCollector; simpl.
  intros -> -> ->; simpl.
  destruct q1, q2, q3; reflexivity.
Qed.

Lemma app_collect_total w :
  exists fragment,
    collect AppCollector.appCollector w = Ok fragment /\
    keys fragment = AppCollector.success_keys.
Proof.
  destruct w as [db|]; [|eexists; split; reflexivity].
  destruct (AppCollector.sessions_query db) as [q1|] eqn:E1.
  2:{ exists (zeros AppCollector.success_keys). split; [|reflexivity].
      apply app_outer_failure_zeros. constructor. left. exact E1. }
  destruct (AppCollector.webhooks_query db) as [q2|] eqn:E2.
  2:{ exists (zeros AppCollector.success_keys). split; [|reflexivity].
      apply app_outer_failure_zeros. apply AppCollector.outer_webhooks_threw, E2. }
  destruct (AppCollector.emails_query db) as [q3|] eqn:E3.
  2:{ exists (zeros AppCollector.success_keys). split; [|reflexivity].
      apply app_outer_failure_zeros. apply AppCollector.outer_emails_threw, E3. }
  rewrite (app_collect_built db q1 q2 q3 E1 E2 E3).
  destruct q1; eexists; split; reflexivity.
Qed.

Lemma app_webhooks_rejected db :
  AppCollector.webhooks_query db = Ok Rejected ->
  exists fragment,
    collect AppCollector.appCollector (Fulfilled db) = Ok fragment /\
    field "pendingWebhooks" fragment = Some 0%Q.
Proof.
  intros E2.
  destruct (AppCollector.sessions_query db) as [q1|] eqn:E1.
  2:{ exists (zeros AppCollector.success_keys). split; [|reflexivity].
      apply app_outer_failure_zeros. constructor. left. exact E1. }
  destruct (AppCollector.emails_query db) as [q3|] eqn:E3.
  2:{ exists (zeros AppCollector.success_keys). split; [|reflexivity].
      apply app_outer_failure_zeros. apply AppCollector.outer_emails_threw, E3. }
  rewrite (app_collect_built db q1 Rejected q3 E1 E2 E3).
  destruct q1; eexists; split; reflexivity.
Qed.

Lemma app_emails_rejected db :
  AppCollector.emails_query db = Ok Rejected ->
  exists fragment,
    collect AppCollector.appCollector (Fulfilled db) = Ok fragment /\
    field "pendingEmails" fragment = Some 0%Q.
Proof.
  intros E3.
  destruct (AppCollector.sessions_query db) as [q1|] eqn:E1.
  2:{ exists (zeros AppCollector.success_keys). split; [|reflexivity].
      apply app_outer_failure_zeros. constructor. left. exact E1. }
  destruct (AppCollector.webhooks_query db) as [q2|] eqn:E2.
  2:{ exists (zeros AppCollector.success_keys). split; [|reflexivity].
      apply app_outer_failure_zeros. apply AppCollector.outer_webhooks_threw, E2. }
  rewrite (app_collect_built db q1 q2 Rejected E1 E2 E3).
  destruct q1; eexists; split; reflexivity.
Qed.

Lemma total_failure_zeros s :
  TotalFailure s -> source_collect s = Ok (zeros (source_keys s)).
Proof.
  intros [opts w H | opts w H | w H]; simpl.
  - apply queue_failure_zeros, H.
  - apply db_pool_failure_zeros, H.
  - apply app_outer_failure_zeros, H.
Qed.

Lemma source_collect_total s :
  exists fragment, source_collect s = Ok fragment /\ keys fragment = source_keys s.
Proof.
  destruct s; simpl.
  - apply queue_collect_total.
  - apply db_pool_collect_total.
  - apply app_collect_total.
Qed.

(** Every internal failure takes at least one metric away. *)
Lemma internal_failure_loses_metric s :
  InternalFailure s -> exists k, MetricLost s k.
Proof.
  intros [opts w H | opts w H | w H].
  - exists "queueActive". apply lost_all; [constructor; exact H|].
    simpl. unfold QueueCollector.success_keys. set_solver.
  - exists "dbPoolUsed". apply lost_all; [constructor; exact H|].
    simpl. unfold DbPoolCollector.success_keys. set_solver.
  - assert (Hk : "onlineUsers" ∈ source_keys (AppSource w)).
    { simpl. unfold AppCollector.success_keys. set_solver. }
    destruct H as [ | db Hs | db [Hw | Hw] | db [He | He] ].
    + exists "onlineUsers". apply lost_all; [|exact Hk]. repeat constructor.
    + exists "onlineUsers". apply lost_all; [|exact Hk].
      constructor. apply AppCollector.outer_sessions, Hs.
    + exists "onlineUsers". apply lost_all; [|exact Hk].
      constructor. apply AppCollector.outer_webhooks_threw, Hw.
    + exists "pendingWebhooks". apply lost_webhooks, Hw.
    + exists "onlineUsers". apply lost_all; [|exact Hk].
      constructor. apply AppCollector.outer_emails_threw, He.
    + exists "pendingEmails". apply lost_emails, He.
Qed.

(** C3 (as amended): on every internal failure [collect()] returns
    normally with the keys of the success path, and every metric the
    failure takes away is zero.  All values are zero for every failure of
    the queue and db-pool collectors and, in the app collector, when the
    import fails, a query throws while it is built, or the [sessions] query
    rejects; a rejected [webhook_events] or [scheduled_emails] query zeroes
    its own metric only, and the other metrics keep the values their
    queries returned. *)
Theorem collect_failure_degrades (s : Source) (H : InternalFailure s) :
  exists fragment,
    source_collect s = Ok fragment /\
    keys fragment = source_keys s /\
    (forall k, MetricLost s k -> field k fragment = Some 0%Q) /\
    (TotalFailure s -> fragment = zeros (source_keys s) /\ all_zero fragment) /\
    (forall db r1 q2 q3,
       s = AppSource (Fulfilled db) ->
       AppCollector.sessions_query db = Ok (Fulfilled r1) ->
       AppCollector.webhooks_query db = Ok q2 ->
       AppCollector.emails_query db = Ok q3 ->
       fragment =
         [("onlineUsers", AppCollector.to_total r1);
          ("pendingWebhooks",
            match q2 with
            | Fulfilled r2 => AppCollector.to_total r2
            | Rejected => 0%Q
            end);
          ("pendingEmails",
            match q3 with
            | Fulfilled r3 => AppCollector.to_total r3
            | Rejected => 0%Q
            end)]).
Proof.
  destruct (source_collect_total s) as (fragment & Hc & Hk).
  exists fragment. split; [exact Hc|]. split; [exact Hk|]. split; [|split].
  - intros k Hlost. destruct Hlost as [s k Ht Hin | db Hw | db He].
    + rewrite (total_failure_zeros s Ht) in Hc. injection Hc as <-.
      apply field_zeros, Hin.
    + destruct (app_webhooks_rejected db Hw) as (f & Hf & Hz).
      unfold source_collect in Hc. rewrite Hf in Hc. injection Hc as <-. exact Hz.
    + destruct (app_emails_rejected db He) as (f & Hf & Hz).
      unfold source_collect in Hc. rewrite Hf in Hc. injection Hc as <-. exact Hz.
  - intros Ht. rewrite (total_failure_zeros s Ht) in Hc. injection Hc as <-.
    split; [reflexivity | apply all_zero_zeros].
  - intros db r1 q2 q3 -> E1 E2 E3. unfold source_collect in Hc.
    rewrite (app_collect_built db (Fulfilled r1) q2 q3 E1 E2 E3) in Hc.
    injection Hc as <-. reflexivity.
Qed.

Lemma collect_failure_degrades_witness :
  (exists fragment,
     source_collect (QueueSource local_queue (Fulfilled bullmq_unreachable)) = Ok fragment /\
     field "queueWorkerCount" fragment = Some 0%Q /\
     all_zero fragment) /\
  source_collect (AppSource (Fulfilled db_without_webhooks))
    = Ok [("onlineUsers", (5 # 1)%Q); ("pendingWebhooks", 0%Q);
          ("pendingEmails", (5 # 1)%Q)].
Proof.
  split.
  - assert (F : QueueCollector.Failure local_queue (Fulfilled bullmq_unreachable)).
    { eapply QueueCollector.getJobCounts_rejected; reflexivity. }
    destruct (collect_failure_degrades
                (QueueSource local_queue (Fulfilled bullmq_unreachable))
                (queue_failure _ _ F))
      as (fragment & Hc & _ & Hlost & Htotal & _).
    exists fragment. split; [exact Hc|]. split.
    + apply Hlost. apply lost_all; [constructor; exact F|].
      apply list_elem_of_In. simpl. tauto.
    + exact (proj2 (Htotal (queue_total _ _ F))).
  - assert (F : AppCollector.Failure (Fulfilled db_without_webhooks)).
    { apply AppCollector.webhooks_failed. right. reflexivity. }
    destruct (collect_failure_degrades (AppSource (Fulfilled db_without_webhooks))
                (app_failure _ F))
      as (fragment & Hc & _ & _ & _ & Hkept).
    rewrite Hc. f_equal.
    exact (Hkept db_without_webhooks
             (Some {| AppCollector.total := Some (5 # 1)%Q |})
             Rejected
             (Fulfilled (Some {| AppCollector.total := Some (5 # 1)%Q |}))
             eq_refl eq_refl eq_refl eq_refl).
Defined.

(** C3 as stated fails: with the [webhook_events] query rejecting, the app
    collector still reports the five sessions and five scheduled emails. *)
Lemma collect_failure_not_all_zero :
  ~ (forall s, InternalFailure s ->
       exists fragment, source_collect s = Ok fragment /\
         keys fragment = source_keys s /\ all_zero fragment).
Proof.
  intros claim.
  destruct (claim (AppSource (Fulfilled db_without_webhooks)))
    as (fragment & Hc & _ & Hz).
  - apply app_failure, AppCollector.webhooks_failed. right. reflexivity.
  - vm_compute in Hc. injection Hc as <-.
    apply Forall_cons in Hz as [Hz _]. simpl in Hz. discriminate Hz.
Qed.

(** ** The hook's history buffer *)

(** A length exceeds a limit when it exceeds the limit's integer part. *)
Lemma Qlt_inject_floor (m : Q) (n : Z) :
  (m < inject_Z n)%Q <-> (Qfloor m < n)%Z.
Proof.
  split.
  - intros H. rewrite Zlt_Qlt.
    eapply Qle_lt_trans; [apply Qfloor_le | exact H].
  - intros H. eapply Qlt_le_trans; [apply Qlt_floor|].
    rewrite <- Zle_Qle. lia.
Qed.

Section HistoryFacts.
Context {ServerStats : Type}.
Implicit Types (h delivered : list ServerStats) (s : ServerStats).

Lemma pushHistory_room (m : Q) s h :
  (Z.of_nat (length h) < Qfloor m)%Z ->
  UseServerStats.pushHistory ServerStats m s h = h ++ [s].
Proof.
  intros Hlt. unfold UseServerStats.pushHistory.
  rewrite length_app; simpl.
  destruct (Qlt_le_dec m _) as [Hq|_]; [|reflexivity].
  apply Qlt_inject_floor in Hq. lia.
Qed.

Lemma pushHistory_full (m : Q) s h :
  (Qfloor m <= Z.of_nat (length h))%Z ->
  UseServerStats.pushHistory ServerStats m s h = drop 1 (h ++ [s]).
Proof.
  intros Hge. unfold UseServerStats.pushHistory, UseServerStats.shift.
  rewrite length_app; simpl.
  destruct (Qlt_le_dec m _) as [_|Hq].
  - destruct (h ++ [s]); reflexivity.
  - exfalso. apply Qle_not_lt in Hq. apply Hq, Qlt_inject_floor. lia.
Qed.

(** The history is the last [floor maxHistory] snapshots delivered. *)
Lemma history_is_suffix (m : Q) delivered :
  (0 <= Qfloor m)%Z ->
  foldl (fun h s => UseServerStats.pushHistory ServerStats m s h) [] delivered
  = drop (length delivered - Z.to_nat (Qfloor m)) delivered.
Proof.
  intros Hm. induction delivered as [|s delivered IH] using rev_ind.
  - reflexivity.
  - rewrite foldl_snoc, IH, length_app; simpl.
    set (n := length delivered).
    destruct (decide (n < Z.to_nat (Qfloor m))) as [Hlt | Hge].
    + replace (n - Z.to_nat (Qfloor m)) with 0 by lia.
      replace (n + 1 - Z.to_nat (Qfloor m)) with 0 by lia.
      rewrite !drop_0. apply pushHistory_room. fold n. lia.
    + rewrite pushHistory_full.
      * rewrite <- drop_app_le by (fold n; lia).
        rewrite drop_drop. f_equal. lia.
      * rewrite length_drop. fold n. lia.
Qed.

End HistoryFacts.

(** C8: with [maxHistory >= 1] (60 when the option is absent) the history
    never holds more than [maxHistory] snapshots, whatever is delivered;
    it is the last [maxHistory] snapshots (the integer part, for a
    fractional limit) in arrival order; a snapshot arriving at a full
    buffer removes the oldest entry alone and is added behind the others. *)
Theorem history_bounded_fifo (ServerStats : Type)
    (opts : option UseServerStats.UseServerStatsOptions)
    (H : (1 <= UseServerStats.resolved_maxHistory opts)%Q) :
  let m := UseServerStats.resolved_maxHistory opts in
  let capacity := Z.to_nat (Qfloor m) in
  (opts = None -> m = 60%Q) /\
  (forall delivered : list ServerStats,
     (inject_Z (Z.of_nat (length (UseServerStats.history ServerStats opts delivered)))
        <= m)%Q /\
     UseServerStats.history ServerStats opts delivered
       = drop (length delivered - capacity) delivered) /\
  (forall (oldest : ServerStats) rest s,
     length (oldest :: rest) = capacity ->
     UseServerStats.pushHistory ServerStats m s (oldest :: rest) = rest ++ [s]) /\
  (forall h (s : ServerStats),
     length h < capacity ->
     UseServerStats.pushHistory ServerStats m s h = h ++ [s]).
Proof.
  intros m capacity.
  assert (Hfloor : (1 <= Qfloor m)%Z).
  { change 1%Z with (Qfloor (inject_Z 1)). apply Qfloor_resp_le. exact H. }
  split; [intros ->; reflexivity|]. split; [|split].
  - intros delivered. unfold UseServerStats.history. fold m.
    rewrite history_is_suffix by lia. fold capacity. split; [|reflexivity].
    eapply Qle_trans; [|apply Qfloor_le]. rewrite <- Zle_Qle.
    rewrite length_drop. unfold capacity. lia.
  - intros oldest rest s Hlen. rewrite pushHistory_full; [reflexivity|].
    rewrite Hlen. unfold capacity. lia.
  - intros h s Hlt. apply pushHistory_room. unfold capacity in Hlt. lia.
Qed.

Lemma history_bounded_fifo_witness :
  UseServerStats.history nat
    (Some {| UseServerStats.endpoint := None; UseServerStats.channel := None;
             UseServerStats.maxHistory := Some 3%Q;
             UseServerStats.staleTimeout := None |})
    [1; 2; 3; 4; 5] = [3; 4; 5].
Proof.
  set (opts := Some {| UseServerStats.endpoint := None; UseServerStats.channel := None;
                       UseServerStats.maxHistory := Some 3%Q;
                       UseServerStats.staleTimeout := None |}).
  assert (H : (1 <= UseServerStats.resolved_maxHistory opts)%Q)
    by (vm_compute; discriminate).
  destruct (history_bounded_fifo nat opts H) as (_ & Hhist & _).
  destruct (Hhist [1; 2; 3; 4; 5]) as [_ ->]. reflexivity.
Defined.

(** ** The shared log stream *)

Lemma logCollectors_app calls1 calls2 p :
  LogCollector.logCollectors (calls1 ++ calls2) p =
    (fst (LogCollector.logCollectors calls1 p)
       ++ fst (LogCollector.logCollectors calls2 (snd (LogCollector.logCollectors calls1 p))),
     snd (LogCollector.logCollectors calls2 (snd (LogCollector.logCollectors calls1 p)))).
Proof.
  revert p. induction calls1 as [|opts calls1 IH]; intros p; simpl.
  - destruct (LogCollector.logCollectors calls2 p); reflexivity.
  - rewrite IH.
    destruct (LogCollector.logCollectors calls1 _) as [cs1 p1]; simpl.
    reflexivity.
Qed.

(** Each call allocates the next reference. *)
Lemma logCollectors_services calls p :
  map LogCollector.service (fst (LogCollector.logCollectors calls p))
    = seq (length (LogCollector.heap p)) (length calls) /\
  length (LogCollector.heap (snd (LogCollector.logCollectors calls p)))
    = length (LogCollector.heap p) + length calls.
Proof.
  revert p. induction calls as [|opts calls IH]; intros p; simpl.
  - split; [reflexivity | lia].
  - specialize (IH (snd (LogCollector.logCollector opts p))).
    unfold LogCollector.logCollector in *; simpl in *.
    destruct (LogCollector.logCollectors calls _) as [cs p']; simpl in *.
    destruct IH as [IH1 IH2]. rewrite length_app in IH1, IH2; simpl in *.
    split.
    + f_equal. rewrite IH1. f_equal. lia.
    + lia.
Qed.

(** C9: [getLogStreamService()] returns [null] before any call of
    [logCollector()]; after one or more calls it returns the instance the
    most recent call created, a new object for that call's [logPath] and
    different from the instance of every earlier call. *)
Theorem getLogStreamService_latest :
  LogCollector.getLogStreamService LogCollector.initial = None /\
  forall (p : LogCollector.Process) (earlier : list LogCollector.LogCollectorOptions)
         (latest : LogCollector.LogCollectorOptions),
    exists cs c p',
      LogCollector.logCollectors (earlier ++ [latest]) p = (cs ++ [c], p') /\
      length cs = length earlier /\
      LogCollector.getLogStreamService p' = Some (LogCollector.service c) /\
      LogCollector.heap p' !! LogCollector.service c
        = Some (LogStreamService.new (LogCollector.logPath latest)) /\
      Forall (fun c' => LogCollector.service c' <> LogCollector.service c) cs.
Proof.
  split; [reflexivity|]. intros p earlier latest.
  rewrite logCollectors_app.
  pose proof (logCollectors_services earlier p) as [Hsvc Hlen].
  destruct (LogCollector.logCollectors earlier p) as [cs p1]; simpl in *.
  eexists cs, _, _. split; [reflexivity|]. simpl.
  split; [|split; [reflexivity|split]].
  - rewrite <- (length_map LogCollector.service), Hsvc. apply length_seq.
  - rewrite lookup_app_r by lia. rewrite Nat.sub_diag. reflexivity.
  - apply Forall_forall. intros c' Hin Heq.
    assert (Hs : LogCollector.service c' ∈ seq (length (LogCollector.heap p)) (length earlier)).
    { rewrite <- Hsvc. apply list_elem_of_fmap. eauto. }
    apply elem_of_seq in Hs. lia.
Qed.

Lemma collect_at c now p s :
  LogCollector.heap p !! LogCollector.service c = Some s ->
  LogCollector.collect c now p =
    Some (LogCollector.fragment_of (fst (LogStreamService.getLogStats now s)),
          {| LogCollector.sharedLogStream := LogCollector.sharedLogStream p;
             LogCollector.heap :=
               <[LogCollector.service c := snd (LogStreamService.getLogStats now s)]>
                 (LogCollector.heap p) |}).
Proof.
  intros H. unfold LogCollector.collect. rewrite H. reflexivity.
Qed.

(** C7 (as amended): the analyzer is exposed through module state:
    [logCollector()] stores the instance it creates, the one its own
    [collect()] reads, in the module variable [sharedLogStream], and
    [getLogStreamService()] hands that instance to any caller. *)
Theorem analyzer_shared_through_module_state
    (opts : LogCollector.LogCollectorOptions) (p : LogCollector.Process) (now : Z) :
  let c := fst (LogCollector.logCollector opts p) in
  let p' := snd (LogCollector.logCollector opts p) in
  LogCollector.sharedLogStream p' = Some (LogCollector.service c) /\
  LogCollector.getLogStreamService p' = Some (LogCollector.service c) /\
  LogCollector.heap p' !! LogCollector.service c
    = Some (LogStreamService.new (LogCollector.logPath opts)) /\
  exists fragment p'',
    LogCollector.collect c now p' = Some (fragment, p'') /\
    LogCollector.getLogStreamService p'' = Some (LogCollector.service c).
Proof.
  simpl. split; [reflexivity|]. split; [reflexivity|].
  assert (Hl : (LogCollector.heap p ++ [LogStreamService.new (LogCollector.logPath opts)])
                 !! length (LogCollector.heap p)
               = Some (LogStreamService.new (LogCollector.logPath opts))).
  { rewrite lookup_app_r by lia. rewrite Nat.sub_diag. reflexivity. }
  split; [exact Hl|].
  eexists _, _. split; [apply collect_at; exact Hl | reflexivity].
Qed.

(** C7 as stated fails: after the first [logCollector()] call the
    module-level accessor, which takes no collector, returns the analyzer
    instance of the collector just created. *)
Lemma analyzer_not_only_injected :
  ~ (forall opts p,
       LogCollector.getLogStreamService (snd (LogCollector.logCollector opts p))
       <> Some (LogCollector.service (fst (LogCollector.logCollector opts p)))).
Proof.
  intros claim.
  apply (claim {| LogCollector.logPath := "logs/adonisjs.log" |} LogCollector.initial).
  reflexivity.
Qed.

(** ** The five-minute window *)

Lemma prune_within now w :
  LogStreamService.prune now w
  = filter (fun e => (now - LogStreamService.timestamp e <= 300000)%Z) w.
Proof.
  unfold LogStreamService.prune. apply list_filter_iff. intros e.
  unfold LogStreamService.older_than_window, LogStreamService.WINDOW_MS. lia.
Qed.

(** Pruning at an earlier clock reading removes nothing that a later
    reading would still count. *)
Lemma prune_prune now1 now2 w :
  (now1 <= now2)%Z ->
  LogStreamService.prune now2 (LogStreamService.prune now1 w)
  = LogStreamService.prune now2 w.
Proof.
  intros Hle. rewrite !prune_within, list_filter_filter.
  apply list_filter_iff. intros e. lia.
Qed.

Lemma prune_app now w1 w2 :
  LogStreamService.prune now (w1 ++ w2)
  = LogStreamService.prune now w1 ++ LogStreamService.prune now w2.
Proof. apply filter_app. Qed.

(** Statistics queried after a poll count the events that the poll found
    in the window and those it appended, as if the poll had not pruned. *)
Lemma stats_after_poll parse_line now1 now2 file s :
  (now1 <= now2)%Z ->
  fst (LogStreamService.getLogStats now2 (LogStreamService.poll parse_line now1 file s))
  = fst (LogStreamService.getLogStats now2
           {| LogStreamService.phase := LogStreamService.phase s;
              LogStreamService.cursor := LogStreamService.cursor s;
              LogStreamService.window :=
                LogStreamService.window s
                  ++ snd (LogStreamService.ingest parse_line file (LogStreamService.cursor s)) |}).
Proof.
  intros Hle. unfold LogStreamService.poll, LogStreamService.getLogStats.
  destruct (LogStreamService.ingest parse_line file _) as [c events]; simpl.
  rewrite prune_prune by exact Hle. reflexivity.
Qed.

(** C1: at clock reading [now], [getLogStats()] retains and counts exactly
    the events of the window with [now - timestamp <= 300_000]: all of them
    in [entriesLast5m], those of severity [error] or [fatal] in
    [errorsLast5m], those of severity [warn] in [warningsLast5m]; the log
    collector reports these counts.  An event of time 0 is counted at
    299_999 and at 300_000, and no longer at 300_001. *)
Theorem window_correctness (now : Z) (s : LogStreamService.t) :
  let stats := fst (LogStreamService.getLogStats now s) in
  let within e := (now - LogStreamService.timestamp e <= 300000)%Z in
  LogStreamService.window (snd (LogStreamService.getLogStats now s))
    = filter within (LogStreamService.window s) /\
  LogStreamService.entriesLast5m stats
    = length (filter within (LogStreamService.window s)) /\
  LogStreamService.errorsLast5m stats
    = length (filter (fun e =>
        (LogStreamService.severity e = LogStreamService.error
         \/ LogStreamService.severity e = LogStreamService.fatal) /\ within e)
        (LogStreamService.window s)) /\
  LogStreamService.warningsLast5m stats
    = length (filter (fun e =>
        LogStreamService.severity e = LogStreamService.warn /\ within e)
        (LogStreamService.window s)) /\
  field "logErrorsLast5m" (LogCollector.fragment_of stats)
    = Some (inject_Z (Z.of_nat (LogStreamService.errorsLast5m stats))) /\
  field "logWarningsLast5m" (LogCollector.fragment_of stats)
    = Some (inject_Z (Z.of_nat (LogStreamService.warningsLast5m stats))) /\
  field "logEntriesLast5m" (LogCollector.fragment_of stats)
    = Some (inject_Z (Z.of_nat (LogStreamService.entriesLast5m stats))) /\
  (forall (sev : LogStreamService.Severity) (at_zero : LogStreamService.t),
     LogStreamService.window at_zero
       = [{| LogStreamService.timestamp := 0; LogStreamService.severity := sev |}] ->
     LogStreamService.entriesLast5m (fst (LogStreamService.getLogStats 299999 at_zero)) = 1 /\
     LogStreamService.entriesLast5m (fst (LogStreamService.getLogStats 300000 at_zero)) = 1 /\
     LogStreamService.entriesLast5m (fst (LogStreamService.getLogStats 300001 at_zero)) = 0).
Proof.
  intros stats within. subst stats. unfold LogStreamService.getLogStats; simpl.
  rewrite !prune_within. fold within.
  split; [reflexivity|]. split; [reflexivity|].
  split; [rewrite list_filter_filter; reflexivity|].
  split; [rewrite list_filter_filter; reflexivity|].
  split; [reflexivity|]. split; [reflexivity|]. split; [reflexivity|].
  intros sev at_zero ->. repeat split.
Qed.

Lemma window_correctness_witness :
  let at_zero :=
    {| LogStreamService.phase := LogStreamService.Running;
       LogStreamService.cursor :=
         {| LogStreamService.filePath := "logs/adonisjs.log";
            LogStreamService.byteOffset := 0;
            LogStreamService.lastKnownSize := 0 |};
       LogStreamService.window :=
         [{| LogStreamService.timestamp := 0;
             LogStreamService.severity := LogStreamService.error |}] |} in
  LogStreamService.errorsLast5m (fst (LogStreamService.getLogStats 299999 at_zero)) = 1 /\
  LogStreamService.errorsLast5m (fst (LogStreamService.getLogStats 300001 at_zero)) = 0 /\
  LogStreamService.entriesLast5m (fst (LogStreamService.getLogStats 299999 at_zero)) = 1 /\
  LogStreamService.entriesLast5m (fst (LogStreamService.getLogStats 300001 at_zero)) = 0.
Proof.
  intros at_zero.
  destruct (window_correctness 0 at_zero) as (_ & _ & _ & _ & _ & _ & _ & Hex).
  destruct (Hex LogStreamService.error at_zero eq_refl) as (H1 & _ & H3).
  split; [reflexivity|]. split; [reflexivity|]. split; [exact H1 | exact H3].
Defined.

(** C2: the statistics satisfy [entriesPerMinute == entriesLast5m / 5],
    also for an empty window, and so do the metrics [logEntriesPerMinute]
    and [logEntriesLast5m] that the log collector's [collect()] returns. *)
Theorem rate_derivation (c : LogCollector.LogMetricCollector) (now : Z)
    (p p' : LogCollector.Process) (fragment : Fragment)
    (H : LogCollector.collect c now p = Some (fragment, p')) :
  (forall s : LogStreamService.t,
     let stats := fst (LogStreamService.getLogStats now s) in
     (LogStreamService.entriesPerMinute stats
        == inject_Z (Z.of_nat (LogStreamService.entriesLast5m stats)) / 5)%Q /\
     (LogStreamService.entriesLast5m stats = 0 ->
        (LogStreamService.entriesPerMinute stats == 0)%Q)) /\
  exists entries rate,
    field "logEntriesLast5m" fragment = Some entries /\
    field "logEntriesPerMinute" fragment = Some rate /\
    (rate == entries / 5)%Q /\
    (entries == 0 -> rate == 0)%Q.
Proof.
  split.
  - intros s stats. subst stats. unfold LogStreamService.getLogStats; simpl.
    split; [reflexivity|]. intros ->. reflexivity.
  - unfold LogCollector.collect in H.
    destruct (LogCollector.heap p !! LogCollector.service c) as [s|]; [|discriminate].
    simpl in H. injection H as <- _.
    eexists _, _. split; [reflexivity|]. split; [reflexivity|].
    split; [reflexivity|]. simpl. intros ->. reflexivity.
Qed.

(** ** Splitting a byte range into lines *)

Lemma unsplit_cons l lines :
  LogStreamService.unsplit (l :: lines)
  = l ++ LogStreamService.newline :: LogStreamService.unsplit lines.
Proof.
  unfold LogStreamService.unsplit; simpl. rewrite <- app_assoc. reflexivity.
Qed.

Lemma unsplit_app lines1 lines2 :
  LogStreamService.unsplit (lines1 ++ lines2)
  = LogStreamService.unsplit lines1 ++ LogStreamService.unsplit lines2.
Proof.
  unfold LogStreamService.unsplit. rewrite map_app. apply join_app.
Qed.

Lemma split_lines_newline bs :
  LogStreamService.split_lines (LogStreamService.newline :: bs)
  = ([] :: fst (LogStreamService.split_lines bs), snd (LogStreamService.split_lines bs)).
Proof.
  change (LogStreamService.split_lines (LogStreamService.newline :: bs))
    with (let '(lines, partial) := LogStreamService.split_lines bs in
          if decide (LogStreamService.newline = LogStreamService.newline)
          then ([] :: lines, partial)
          else match lines with
               | [] => ([], LogStreamService.newline :: partial)
               | l :: lines' => ((LogStreamService.newline :: l) :: lines', partial)
               end).
  destruct (LogStreamService.split_lines bs) as [lines partial].
  destruct (decide (LogStreamService.newline = LogStreamService.newline));
    [reflexivity | congruence].
Qed.

Lemma split_lines_other b bs :
  b <> LogStreamService.newline ->
  LogStreamService.split_lines (b :: bs)
  = match fst (LogStreamService.split_lines bs) with
    | [] => ([], b :: snd (LogStreamService.split_lines bs))
    | l :: lines => ((b :: l) :: lines, snd (LogStreamService.split_lines bs))
    end.
Proof.
  intros Hb.
  change (LogStreamService.split_lines (b :: bs))
    with (let '(lines, partial) := LogStreamService.split_lines bs in
          if decide (b = LogStreamService.newline)
          then ([] :: lines, partial)
          else match lines with
               | [] => ([], b :: partial)
               | l :: lines' => ((b :: l) :: lines', partial)
               end).
  destruct (LogStreamService.split_lines bs) as [lines partial].
  destruct (decide (b = LogStreamService.newline)); [congruence | reflexivity].
Qed.

(** The lines and the partial line put together are the range itself. *)
Lemma split_lines_unsplit bs :
  bs = LogStreamService.unsplit (fst (LogStreamService.split_lines bs))
         ++ snd (LogStreamService.split_lines bs).
Proof.
  induction bs as [|b bs IH]; [reflexivity|].
  destruct (decide (b = LogStreamService.newline)) as [-> | Hb].
  - rewrite split_lines_newline. cbn [fst snd]. rewrite unsplit_cons.
    cbn [app]. f_equal. exact IH.
  - rewrite (split_lines_other b bs Hb).
    destruct (LogStreamService.split_lines bs) as [[|l lines] partial]; cbn [fst snd] in *.
    + cbn [app LogStreamService.unsplit] in *. rewrite IH at 1. reflexivity.
    + rewrite unsplit_cons in *. rewrite <- !app_comm_cons. f_equal.
      exact IH.
Qed.

(** No terminator is left inside a line or inside the partial line. *)
Lemma split_lines_no_newline bs :
  Forall (fun l => LogStreamService.newline ∉ l) (fst (LogStreamService.split_lines bs)) /\
  LogStreamService.newline ∉ snd (LogStreamService.split_lines bs).
Proof.
  induction bs as [|b bs [IHl IHp]].
  - split; [constructor | apply not_elem_of_nil].
  - destruct (decide (b = LogStreamService.newline)) as [-> | Hb].
    + rewrite split_lines_newline. cbn [fst snd].
      split; [|exact IHp]. constructor; [apply not_elem_of_nil | exact IHl].
    + rewrite (split_lines_other b bs Hb).
      destruct (LogStreamService.split_lines bs) as [[|l lines] partial]; cbn [fst snd] in *.
      * split; [constructor|]. apply not_elem_of_cons. split; [congruence | exact IHp].
      * apply Forall_cons in IHl as [Hl Hls]. split; [|exact IHp].
        constructor; [|exact Hls]. apply not_elem_of_cons. split; [congruence | exact Hl].
Qed.

Lemma split_lines_partial partial :
  LogStreamService.newline ∉ partial ->
  LogStreamService.split_lines partial = ([], partial).
Proof.
  induction partial as [|b partial IH]; intros Hn; [reflexivity|].
  apply not_elem_of_cons in Hn as [Hb Hn].
  rewrite split_lines_other by congruence. rewrite (IH Hn). reflexivity.
Qed.

(** Splitting is determined by the lines and the partial line. *)
Lemma split_lines_of_unsplit lines partial :
  Forall (fun l => LogStreamService.newline ∉ l) lines ->
  LogStreamService.newline ∉ partial ->
  LogStreamService.split_lines (LogStreamService.unsplit lines ++ partial)
  = (lines, partial).
Proof.
  intros Hlines Hpartial. induction Hlines as [|l lines Hl Hlines IH].
  - apply split_lines_partial, Hpartial.
  - rewrite unsplit_cons, <- app_assoc, <- app_comm_cons.
    induction l as [|b l IHl].
    + cbn [app]. rewrite split_lines_newline, IH. reflexivity.
    + apply not_elem_of_cons in Hl as [Hb Hl].
      rewrite <- app_comm_cons, split_lines_other by congruence.
      rewrite (IHl Hl). reflexivity.
Qed.

(** Bytes appended to a range continue its partial line. *)
Lemma split_lines_app bs more :
  LogStreamService.split_lines (bs ++ more) =
    (fst (LogStreamService.split_lines bs)
       ++ fst (LogStreamService.split_lines (snd (LogStreamService.split_lines bs) ++ more)),
     snd (LogStreamService.split_lines (snd (LogStreamService.split_lines bs) ++ more))).
Proof.
  pose proof (split_lines_unsplit bs) as Hbs.
  pose proof (split_lines_no_newline bs) as [Hl1 _].
  destruct (LogStreamService.split_lines bs) as [lines1 partial1]; simpl in *.
  pose proof (split_lines_unsplit (partial1 ++ more)) as Hmore.
  pose proof (split_lines_no_newline (partial1 ++ more)) as [Hl2 Hp2].
  destruct (LogStreamService.split_lines (partial1 ++ more)) as [lines2 partial2];
    simpl in *.
  rewrite Hbs, <- app_assoc, Hmore, app_assoc, <- unsplit_app.
  apply split_lines_of_unsplit; [|exact Hp2].
  apply Forall_app. split; assumption.
Qed.

Lemma complete_length_unsplit bs :
  LogStreamService.complete_length bs
  = length (LogStreamService.unsplit (fst (LogStreamService.split_lines bs))).
Proof.
  unfold LogStreamService.complete_length.
  rewrite (split_lines_unsplit bs) at 1. rewrite length_app. lia.
Qed.

Lemma drop_complete_length bs :
  drop (LogStreamService.complete_length bs) bs
  = snd (LogStreamService.split_lines bs).
Proof.
  rewrite complete_length_unsplit.
  rewrite (split_lines_unsplit bs) at 2. apply drop_app_length.
Qed.

(** ** Tailing the file *)

Section TailFacts.
Variable parse_line : list byte -> option LogStreamService.LogEvent.

(** One poll reads from [from] and moves the cursor over the complete lines
    of what it read. *)
Lemma ingest_complete_lines bytes c :
  let from := LogStreamService.read_from (length bytes) c in
  let lines := fst (LogStreamService.split_lines (drop from bytes)) in
  LogStreamService.ingest parse_line (Some bytes) c
  = ({| LogStreamService.filePath := LogStreamService.filePath c;
        LogStreamService.byteOffset := from + length (LogStreamService.unsplit lines);
        LogStreamService.lastKnownSize := length bytes |},
     omap parse_line lines).
Proof.
  intros from lines. unfold LogStreamService.ingest. fold from.
  pose proof (split_lines_unsplit (drop from bytes)) as Hrange. fold lines in Hrange.
  destruct (LogStreamService.split_lines (drop from bytes)) as [lines' partial] eqn:E.
  subst lines. cbn [fst snd] in *. f_equal. f_equal.
  rewrite Hrange at 1. rewrite length_app. lia.
Qed.

Lemma caught_up_new logPath :
  LogStreamService.caught_up [] (LogStreamService.cursor (LogStreamService.new logPath)).
Proof. split; reflexivity. Qed.

Lemma caught_up_unique bytes c c' :
  LogStreamService.caught_up bytes c ->
  LogStreamService.caught_up bytes c' ->
  LogStreamService.filePath c = LogStreamService.filePath c' ->
  c = c'.
Proof.
  intros [H1 H2] [H1' H2'] Hp. destruct c, c'; simpl in *. congruence.
Qed.

Lemma complete_length_le bytes :
  LogStreamService.complete_length bytes <= length bytes.
Proof. unfold LogStreamService.complete_length. lia. Qed.

(** A poll after an append, from a cursor that had caught up. *)
Lemma ingest_append bytes more c :
  LogStreamService.caught_up bytes c ->
  LogStreamService.ingest parse_line (Some (bytes ++ more)) c
  = ({| LogStreamService.filePath := LogStreamService.filePath c;
        LogStreamService.byteOffset := LogStreamService.complete_length (bytes ++ more);
        LogStreamService.lastKnownSize := length (bytes ++ more) |},
     omap parse_line
       (fst (LogStreamService.split_lines
               (snd (LogStreamService.split_lines bytes) ++ more)))).
Proof.
  intros [Hoff Hsize]. rewrite ingest_complete_lines.
  unfold LogStreamService.read_from.
  rewrite Hsize, Hoff. rewrite length_app.
  destruct (decide (length bytes + length more < length bytes)) as [Hlt|_]; [lia|].
  rewrite drop_app_le by apply complete_length_le.
  rewrite drop_complete_length.
  f_equal. f_equal.
  rewrite !complete_length_unsplit, (split_lines_app bytes more). cbn [fst].
  rewrite unsplit_app, length_app. reflexivity.
Qed.

Lemma events_of_app bytes more :
  LogStreamService.events_of parse_line (bytes ++ more)
  = LogStreamService.events_of parse_line bytes
      ++ omap parse_line
           (fst (LogStreamService.split_lines
                   (snd (LogStreamService.split_lines bytes) ++ more))).
Proof.
  unfold LogStreamService.events_of. rewrite (split_lines_app bytes more). cbn [fst].
  apply omap_app.
Qed.

Lemma ingest_append_caught_up bytes more c :
  LogStreamService.caught_up bytes c ->
  LogStreamService.caught_up (bytes ++ more)
    (fst (LogStreamService.ingest parse_line (Some (bytes ++ more)) c)) /\
  LogStreamService.filePath (fst (LogStreamService.ingest parse_line (Some (bytes ++ more)) c))
    = LogStreamService.filePath c /\
  LogStreamService.events_of parse_line (bytes ++ more)
    = LogStreamService.events_of parse_line bytes
        ++ snd (LogStreamService.ingest parse_line (Some (bytes ++ more)) c).
Proof.
  intros Hc. rewrite (ingest_append bytes more c Hc). cbn [fst snd].
  split; [split; reflexivity|]. split; [reflexivity|]. apply events_of_app.
Qed.

(** Polling after every append: the cursor stays caught up and the events
    of all polls together are the events of the complete lines appended. *)
Lemma tail_appends_events appends : forall bytes c,
  LogStreamService.caught_up bytes c ->
  exists c' events,
    LogStreamService.tail_appends parse_line bytes c appends
      = (bytes ++ mjoin appends, c', events) /\
    LogStreamService.caught_up (bytes ++ mjoin appends) c' /\
    LogStreamService.filePath c' = LogStreamService.filePath c /\
    LogStreamService.events_of parse_line (bytes ++ mjoin appends)
      = LogStreamService.events_of parse_line bytes ++ events.
Proof.
  induction appends as [|a appends IH]; intros bytes c Hc.
  - exists c, []. simpl. rewrite !app_nil_r. repeat split; apply Hc.
  - destruct (ingest_append_caught_up bytes a c Hc) as (Hc1 & Hp1 & He1).
    cbn [LogStreamService.tail_appends].
    destruct (LogStreamService.ingest parse_line (Some (bytes ++ a)) c) as [c1 ev1].
    cbn [fst snd] in *.
    destruct (IH (bytes ++ a) c1 Hc1) as (c' & ev2 & Ht & Hc' & Hp' & He').
    rewrite Ht. exists c', (ev1 ++ ev2).
    assert (Hj : bytes ++ mjoin (a :: appends) = (bytes ++ a) ++ mjoin appends)
      by (simpl; apply app_assoc).
    rewrite Hj.
    split; [reflexivity|]. split; [exact Hc'|]. split; [congruence|].
    rewrite He', He1, app_assoc. reflexivity.
Qed.

(** A poll that finds no new bytes changes nothing and parses nothing. *)
Lemma ingest_unchanged bytes c :
  LogStreamService.caught_up bytes c ->
  LogStreamService.ingest parse_line (Some bytes) c = (c, []).
Proof.
  intros Hc. pose proof (ingest_append bytes [] c Hc) as H.
  rewrite !app_nil_r in H. rewrite H.
  rewrite split_lines_partial by apply split_lines_no_newline.
  cbn [fst omap list_omap]. f_equal.
  destruct Hc as [Hoff Hsize]. destruct c; simpl in *. congruence.
Qed.

End TailFacts.

Section TailClaims.
Variable parse_line : list byte -> option LogStreamService.LogEvent.

Lemma split_lines_app_partial bytes more :
  LogStreamService.newline ∉ snd (LogStreamService.split_lines bytes) ++ more ->
  LogStreamService.split_lines (bytes ++ more)
  = (fst (LogStreamService.split_lines bytes),
     snd (LogStreamService.split_lines bytes) ++ more).
Proof.
  intros Hn. rewrite (split_lines_app bytes more).
  rewrite (split_lines_partial _ Hn). cbn [fst snd]. rewrite app_nil_r. reflexivity.
Qed.

Lemma split_lines_complete_line line :
  LogStreamService.newline ∉ line ->
  LogStreamService.split_lines (line ++ [LogStreamService.newline]) = ([line], []).
Proof.
  intros Hn.
  pose proof (split_lines_of_unsplit [line] []) as H.
  rewrite unsplit_cons, app_nil_r in H. apply H.
  - constructor; [exact Hn | constructor].
  - apply not_elem_of_nil.
Qed.

(** A line written in two parts, each followed by a poll. *)
Lemma ingest_two_writes bytes c first second e :
  LogStreamService.caught_up bytes c ->
  LogStreamService.newline ∉ first ->
  LogStreamService.newline ∉ second ->
  parse_line (snd (LogStreamService.split_lines bytes) ++ first ++ second) = Some e ->
  exists c1 c2,
    LogStreamService.ingest parse_line (Some (bytes ++ first)) c = (c1, []) /\
    LogStreamService.byteOffset c1 = LogStreamService.byteOffset c /\
    LogStreamService.ingest parse_line
      (Some (bytes ++ first ++ second ++ [LogStreamService.newline])) c1 = (c2, [e]) /\
    LogStreamService.byteOffset c2
      = length (bytes ++ first ++ second ++ [LogStreamService.newline]).
Proof.
  intros Hc Hfirst Hsecond Hparse.
  pose proof (split_lines_no_newline bytes) as [_ Hpartial].
  assert (Hpf : LogStreamService.newline
                  ∉ snd (LogStreamService.split_lines bytes) ++ first).
  { rewrite elem_of_app. tauto. }
  assert (Hline : LogStreamService.newline
                    ∉ snd (LogStreamService.split_lines bytes) ++ first ++ second).
  { rewrite !elem_of_app. tauto. }
  pose proof (split_lines_app_partial bytes first Hpf) as Hsplit1.
  destruct (ingest_append_caught_up parse_line bytes first c Hc) as (Hc1 & _ & _).
  pose proof (ingest_append parse_line bytes first c Hc) as H1.
  rewrite (split_lines_partial _ Hpf) in H1. cbn [fst omap list_omap] in H1.
  rewrite H1 in Hc1. cbn [fst] in Hc1.
  eexists _, _. split; [exact H1|]. split.
  { cbn [LogStreamService.byteOffset]. destruct Hc as [-> _].
    rewrite !complete_length_unsplit, Hsplit1. reflexivity. }
  pose proof (ingest_append parse_line (bytes ++ first)
                (second ++ [LogStreamService.newline]) _ Hc1) as H2.
  rewrite <- app_assoc in H2. rewrite H2. clear H2.
  rewrite Hsplit1. cbn [snd].
  assert (Hwhole :
    (snd (LogStreamService.split_lines bytes) ++ first)
      ++ second ++ [LogStreamService.newline]
    = (snd (LogStreamService.split_lines bytes) ++ first ++ second)
        ++ [LogStreamService.newline]).
  { rewrite <- !app_assoc. reflexivity. }
  rewrite Hwhole, (split_lines_complete_line _ Hline).
  cbn [fst omap list_omap]. rewrite Hparse. cbn.
  split; [reflexivity|].
  unfold LogStreamService.complete_length.
  replace (bytes ++ first ++ second ++ [LogStreamService.newline])
    with ((bytes ++ first) ++ second ++ [LogStreamService.newline])
    by (rewrite <- app_assoc; reflexivity).
  rewrite (split_lines_app (bytes ++ first)), Hsplit1. cbn [snd].
  rewrite Hwhole, (split_lines_complete_line _ Hline). cbn [snd length].
  apply Nat.sub_0_r.
Qed.

Lemma tail_appends_nothing n : forall bytes c,
  LogStreamService.caught_up bytes c ->
  LogStreamService.tail_appends parse_line bytes c (replicate n []) = (bytes, c, []).
Proof.
  induction n as [|n IH]; intros bytes c Hc; [reflexivity|].
  cbn [replicate LogStreamService.tail_appends]. rewrite app_nil_r.
  rewrite (ingest_unchanged parse_line bytes c Hc), (IH bytes c Hc). reflexivity.
Qed.

End TailClaims.

(** C5: a poll moves [byteOffset] over complete lines only: what it read
    is a run of terminator-ended lines, which it parses, followed by a
    partial line that stays unconsumed and is what the next poll finds at
    the cursor.  From a cursor that has caught up with the file, a line
    written in two parts with a poll after each part yields no event at
    the first poll and exactly one at the second; polls without new bytes
    change nothing and yield nothing; and the events of the polls after
    any appends are together the events of the complete lines appended. *)
Theorem tail_partial_line_safety
    (parse_line : list byte -> option LogStreamService.LogEvent)
    (bytes : list byte) (c : LogStreamService.TailCursor)
    (H : LogStreamService.caught_up bytes c) :
  (forall (file : list byte) (c0 : LogStreamService.TailCursor),
     exists from lines partial,
       from = LogStreamService.read_from (length file) c0 /\
       drop from file = LogStreamService.unsplit lines ++ partial /\
       Forall (fun l => LogStreamService.newline ∉ l) lines /\
       (LogStreamService.newline ∉ partial) /\
       snd (LogStreamService.ingest parse_line (Some file) c0) = omap parse_line lines /\
       LogStreamService.byteOffset (fst (LogStreamService.ingest parse_line (Some file) c0))
         = from + length (LogStreamService.unsplit lines) /\
       drop (LogStreamService.byteOffset
               (fst (LogStreamService.ingest parse_line (Some file) c0))) file
         = partial) /\
  (forall first second e,
     LogStreamService.newline ∉ first ->
     LogStreamService.newline ∉ second ->
     parse_line (snd (LogStreamService.split_lines bytes) ++ first ++ second) = Some e ->
     exists c1 c2,
       LogStreamService.ingest parse_line (Some (bytes ++ first)) c = (c1, []) /\
       LogStreamService.byteOffset c1 = LogStreamService.byteOffset c /\
       LogStreamService.ingest parse_line
         (Some (bytes ++ first ++ second ++ [LogStreamService.newline])) c1 = (c2, [e]) /\
       LogStreamService.byteOffset c2
         = length (bytes ++ first ++ second ++ [LogStreamService.newline])) /\
  (forall n,
     LogStreamService.tail_appends parse_line bytes c (replicate n []) = (bytes, c, [])) /\
  (forall appends,
     exists c' events,
       LogStreamService.tail_appends parse_line bytes c appends
         = (bytes ++ mjoin appends, c', events) /\
       LogStreamService.caught_up (bytes ++ mjoin appends) c' /\
       LogStreamService.events_of parse_line (bytes ++ mjoin appends)
         = LogStreamService.events_of parse_line bytes ++ events).
Proof.
  split; [|split; [|split]].
  - intros file c0.
    pose proof (ingest_complete_lines parse_line file c0) as Hi. cbv zeta in Hi.
    set (from := LogStreamService.read_from (length file) c0) in *.
    pose proof (split_lines_unsplit (drop from file)) as Hrange.
    pose proof (split_lines_no_newline (drop from file)) as [Hl Hp].
    destruct (LogStreamService.split_lines (drop from file)) as [lines partial].
    cbn [fst snd] in *.
    exists from, lines, partial.
    rewrite Hi. cbn [fst snd LogStreamService.byteOffset].
    repeat split; try assumption; try reflexivity.
    rewrite <- drop_drop, Hrange. apply drop_app_length.
  - intros first second e. apply ingest_two_writes, H.
  - intros n. apply tail_appends_nothing, H.
  - intros appends.
    destruct (tail_appends_events parse_line appends bytes c H)
      as (c' & events & Ht & Hc' & _ & He).
    exists c', events. repeat split; try assumption; apply Hc'.
Qed.

Lemma tail_partial_line_safety_witness :
  let written := bytes_of "I5" ++ [LogStreamService.newline] in
  let c := {| LogStreamService.filePath := "logs/adonisjs.log";
              LogStreamService.byteOffset := 3;
              LogStreamService.lastKnownSize := 3 |} in
  exists c1 c2,
    LogStreamService.ingest parse_letter_line (Some (written ++ bytes_of "E1")) c
      = (c1, []) /\
    LogStreamService.ingest parse_letter_line
      (Some (written ++ bytes_of "E1" ++ bytes_of "2" ++ [LogStreamService.newline])) c1
      = (c2, [{| LogStreamService.timestamp := 12;
                 LogStreamService.severity := LogStreamService.error |}]).
Proof.
  intros written c.
  assert (Hc : LogStreamService.caught_up written c) by (split; reflexivity).
  destruct (tail_partial_line_safety parse_letter_line written c Hc)
    as (_ & Htwo & _ & _).
  destruct (Htwo (bytes_of "E1") (bytes_of "2")
              {| LogStreamService.timestamp := 12;
                 LogStreamService.severity := LogStreamService.error |})
    as (c1 & c2 & H1 & _ & H2 & _).
  - apply (bool_decide_unpack _). vm_compute. exact I.
  - apply (bool_decide_unpack _). vm_compute. exact I.
  - reflexivity.
  - exists c1, c2. split; assumption.
Defined.

(** C6: when the file is smaller than [lastKnownSize], the poll reads it
    from offset 0: it parses every complete line of the new content and
    nothing else, leaves the cursor at the end of those lines, and appends
    exactly these events to the window. *)
Theorem truncation_resets
    (parse_line : list byte -> option LogStreamService.LogEvent)
    (bytes : list byte) (c : LogStreamService.TailCursor)
    (H : length bytes < LogStreamService.lastKnownSize c) :
  LogStreamService.ingest parse_line (Some bytes) c
    = ({| LogStreamService.filePath := LogStreamService.filePath c;
          LogStreamService.byteOffset := LogStreamService.complete_length bytes;
          LogStreamService.lastKnownSize := length bytes |},
       LogStreamService.events_of parse_line bytes) /\
  LogStreamService.ingest parse_line (Some bytes) c
    = LogStreamService.ingest parse_line (Some bytes)
        {| LogStreamService.filePath := LogStreamService.filePath c;
           LogStreamService.byteOffset := 0;
           LogStreamService.lastKnownSize := 0 |} /\
  LogStreamService.caught_up bytes
    (fst (LogStreamService.ingest parse_line (Some bytes) c)) /\
  (forall (now : Z) (s : LogStreamService.t),
     LogStreamService.cursor s = c ->
     LogStreamService.window (LogStreamService.poll parse_line now (Some bytes) s)
       = LogStreamService.prune now
           (LogStreamService.window s ++ LogStreamService.events_of parse_line bytes)).
Proof.
  assert (Hi : LogStreamService.ingest parse_line (Some bytes) c
    = ({| LogStreamService.filePath := LogStreamService.filePath c;
          LogStreamService.byteOffset := LogStreamService.complete_length bytes;
          LogStreamService.lastKnownSize := length bytes |},
       LogStreamService.events_of parse_line bytes)).
  { rewrite ingest_complete_lines. unfold LogStreamService.read_from.
    destruct (decide (length bytes < LogStreamService.lastKnownSize c)) as [_|Hn];
      [|contradiction].
    rewrite drop_0, complete_length_unsplit. reflexivity. }
  split; [exact Hi|]. split; [|split].
  - rewrite Hi, ingest_complete_lines. unfold LogStreamService.read_from.
    cbn [LogStreamService.lastKnownSize LogStreamService.byteOffset
         LogStreamService.filePath].
    destruct (decide (length bytes < 0)) as [Hlt|_]; [lia|].
    rewrite drop_0, complete_length_unsplit. reflexivity.
  - rewrite Hi. split; reflexivity.
  - intros now s Hs. unfold LogStreamService.poll. rewrite Hs, Hi. reflexivity.
Qed.

Lemma truncation_resets_witness :
  LogStreamService.ingest parse_letter_line
    (Some (bytes_of "I7" ++ [LogStreamService.newline]))
    {| LogStreamService.filePath := "logs/adonisjs.log";
       LogStreamService.byteOffset := 6;
       LogStreamService.lastKnownSize := 6 |}
  = ({| LogStreamService.filePath := "logs/adonisjs.log";
        LogStreamService.byteOffset := 3;
        LogStreamService.lastKnownSize := 3 |},
     [{| LogStreamService.timestamp := 7;
         LogStreamService.severity := LogStreamService.info |}]).
Proof.
  refine (proj1 (truncation_resets parse_letter_line
                   (bytes_of "I7" ++ [LogStreamService.newline])
                   {| LogStreamService.filePath := "logs/adonisjs.log";
                      LogStreamService.byteOffset := 6;
                      LogStreamService.lastKnownSize := 6 |} _)).
  simpl. lia.
Defined.

Lemma rate_derivation_witness :
  let event t sev :=
    {| LogStreamService.timestamp := t; LogStreamService.severity := sev |} in
  let p :=
    {| LogCollector.sharedLogStream := Some 0;
       LogCollector.heap :=
         [{| LogStreamService.phase := LogStreamService.Running;
             LogStreamService.cursor := fresh_cursor;
             LogStreamService.window :=
               [event 1000%Z LogStreamService.info;
                event 250000%Z LogStreamService.error;
                event 400000%Z LogStreamService.warn] |}] |} in
  let c := {| LogCollector.name := "log"; LogCollector.service := 0 |} in
  exists fragment p' rate,
    LogCollector.collect c 500000%Z p = Some (fragment, p') /\
    field "logEntriesLast5m" fragment = Some (2 # 1)%Q /\
    field "logEntriesPerMinute" fragment = Some rate /\
    (rate == 2 / 5)%Q.
Proof.
  intros event p c.
  destruct (LogCollector.collect c 500000%Z p) as [[fragment p']|] eqn:E;
    [|discriminate E].
  destruct (rate_derivation c 500000%Z p p' fragment E)
    as (_ & entries & rate & He & Hr & Hrate & _).
  exists fragment, p', rate. split; [reflexivity|].
  injection E as <- _.
  split; [reflexivity|]. split; [exact Hr|].
  injection He as <-. exact Hrate.
Defined.

(** ** More on the history buffer *)

(** X1: An arrival never shortens the history, and a history that already holds
    more than [maxHistory] snapshots (the limit was lowered) is not cut
    back: the arrival is added, one entry is removed from the front, and
    the length stays what it was. *)
Theorem pushHistory_never_trims (ServerStats : Type) (maxHistory : Q)
    (s : ServerStats) (h : list ServerStats) :
  length h <= length (UseServerStats.pushHistory ServerStats maxHistory s h) <= S (length h) /\
  ((maxHistory < inject_Z (Z.of_nat (length h)))%Q ->
     UseServerStats.pushHistory ServerStats maxHistory s h = drop 1 (h ++ [s]) /\
     length (UseServerStats.pushHistory ServerStats maxHistory s h) = length h).
Proof.
  destruct (decide (Z.of_nat (length h) < Qfloor maxHistory)%Z) as [Hroom | Hfull].
  - rewrite pushHistory_room by exact Hroom. rewrite length_app; simpl.
    split; [lia|]. intros Hover. apply Qlt_inject_floor in Hover. lia.
  - rewrite pushHistory_full by lia. rewrite length_drop, length_app; simpl.
    split; [lia|]. intros Hover. split; [reflexivity | lia].
Qed.

Lemma pushHistory_never_trims_witness :
  UseServerStats.pushHistory nat 2%Q 9 [1; 2; 3; 4] = [2; 3; 4; 9].
Proof.
  destruct (pushHistory_never_trims nat 2%Q 9 [1; 2; 3; 4]) as [_ Hover].
  destruct Hover as [-> _]; [vm_compute; reflexivity | reflexivity].
Defined.

(** X2: With [maxHistory] below 1 the history stays empty, whatever is
    delivered. *)
Theorem history_empty_below_one (ServerStats : Type)
    (opts : option UseServerStats.UseServerStatsOptions)
    (H : (UseServerStats.resolved_maxHistory opts < 1)%Q)
    (delivered : list ServerStats) :
  UseServerStats.history ServerStats opts delivered = [].
Proof.
  unfold UseServerStats.history.
  induction delivered as [|s delivered IH] using rev_ind; [reflexivity|].
  rewrite foldl_snoc, IH. rewrite pushHistory_full; [reflexivity|].
  change (inject_Z 1) with 1%Q in *. simpl.
  assert (Hlt : (UseServerStats.resolved_maxHistory opts < inject_Z 1)%Q) by exact H.
  apply Qlt_inject_floor in Hlt. lia.
Qed.

Lemma history_empty_below_one_witness :
  UseServerStats.history nat
    (Some {| UseServerStats.endpoint := None; UseServerStats.channel := None;
             UseServerStats.maxHistory := Some 0%Q;
             UseServerStats.staleTimeout := None |})
    [1; 2; 3] = [].
Proof.
  apply history_empty_below_one. vm_compute. reflexivity.
Defined.

(** ** The hook's state *)

Section HookFacts.
Context {ServerStats : Type} (timestamp : ServerStats -> Q).
Context (opts : option UseServerStats.UseServerStatsOptions).

Lemma run_snoc events e :
  Hook.run ServerStats timestamp opts (events ++ [e])
  = Hook.step ServerStats timestamp opts (Hook.run ServerStats timestamp opts events) e.
Proof. unfold Hook.run. apply foldl_snoc. Qed.

(** An event that delivers nothing changes nothing; one that delivers a
    snapshot stores it and pushes it. *)
Lemma step_delivery st e :
  match Hook.delivery ServerStats opts e with
  | None => Hook.step ServerStats timestamp opts st e = st
  | Some data =>
      Hook.stats ServerStats (Hook.step ServerStats timestamp opts st e) = Some data /\
      Hook.timestampRef ServerStats (Hook.step ServerStats timestamp opts st e)
        = timestamp data /\
      Hook.historyRef ServerStats (Hook.step ServerStats timestamp opts st e)
        = UseServerStats.pushHistory ServerStats
            (UseServerStats.resolved_maxHistory opts) data (Hook.historyRef ServerStats st)
  end.
Proof.
  destruct e as [cancelled [axios|] | message]; simpl.
  - destruct cancelled; simpl.
    + destruct (Hook.get ServerStats axios _); reflexivity.
    + destruct (Hook.get ServerStats axios _); simpl; [|reflexivity].
      repeat split.
  - destruct cancelled; reflexivity.
  - repeat split.
Qed.

Lemma run_tracks events :
  let st := Hook.run ServerStats timestamp opts events in
  let delivered := omap (Hook.delivery ServerStats opts) events in
  Hook.stats ServerStats st = last delivered /\
  Hook.timestampRef ServerStats st = default 0%Q (timestamp <$> last delivered) /\
  Hook.historyRef ServerStats st = UseServerStats.history ServerStats opts delivered.
Proof.
  induction events as [|e events IH] using rev_ind; [repeat split|].
  cbv zeta in *. rewrite run_snoc, omap_app.
  pose proof (step_delivery (Hook.run ServerStats timestamp opts events) e) as Hstep.
  simpl. destruct (Hook.delivery ServerStats opts e) as [data|].
  - destruct Hstep as (Hs & Ht & Hh). rewrite Hs, Ht, Hh, last_snoc.
    destruct IH as (_ & _ & ->). split; [reflexivity|]. split; [reflexivity|].
    unfold UseServerStats.history. rewrite foldl_snoc. reflexivity.
  - rewrite Hstep, app_nil_r. exact IH.
Qed.

Lemma history_last_delivered delivered :
  (1 <= UseServerStats.resolved_maxHistory opts)%Q ->
  last (UseServerStats.history ServerStats opts delivered) = last delivered.
Proof.
  intros H.
  assert (Hfloor : (1 <= Qfloor (UseServerStats.resolved_maxHistory opts))%Z).
  { change 1%Z with (Qfloor (inject_Z 1)). apply Qfloor_resp_le. exact H. }
  destruct delivered as [|d delivered] using rev_ind; [reflexivity|].
  unfold UseServerStats.history. rewrite foldl_snoc, last_snoc.
  set (h := foldl _ [] delivered).
  destruct (decide (Z.of_nat (length h)
                    < Qfloor (UseServerStats.resolved_maxHistory opts))%Z) as [Hroom|Hfull].
  - rewrite pushHistory_room by exact Hroom. apply last_snoc.
  - rewrite pushHistory_full by lia.
    destruct h as [|oldest rest]; [simpl in *; lia|]. simpl. apply last_snoc.
Qed.

End HookFacts.

(** X3: After any fetch results and messages, [stats] is the snapshot that
    arrived last (not the one with the latest timestamp), [timestampRef]
    is its timestamp, and the history is built from exactly the snapshots
    delivered, in arrival order; a failed or cancelled fetch leaves no
    trace. *)
Theorem hook_tracks_deliveries (ServerStats : Type) (timestamp : ServerStats -> Q)
    (opts : option UseServerStats.UseServerStatsOptions)
    (events : list (Hook.Event ServerStats)) :
  let st := Hook.run ServerStats timestamp opts events in
  let delivered := omap (Hook.delivery ServerStats opts) events in
  Hook.stats ServerStats st = last delivered /\
  Hook.timestampRef ServerStats st = default 0%Q (timestamp <$> last delivered) /\
  Hook.historyRef ServerStats st = UseServerStats.history ServerStats opts delivered.
Proof. apply run_tracks. Qed.

(** X4: With [maxHistory >= 1] the newest entry of the returned history is the
    returned [stats]; both are absent before the first delivery. *)
Theorem hook_history_ends_with_stats (ServerStats : Type) (timestamp : ServerStats -> Q)
    (opts : option UseServerStats.UseServerStatsOptions)
    (H : (1 <= UseServerStats.resolved_maxHistory opts)%Q)
    (events : list (Hook.Event ServerStats)) :
  last (Hook.historyRef ServerStats (Hook.run ServerStats timestamp opts events))
  = Hook.stats ServerStats (Hook.run ServerStats timestamp opts events).
Proof.
  destruct (run_tracks timestamp opts events) as (-> & _ & ->).
  apply history_last_delivered, H.
Qed.

Lemma hook_history_ends_with_stats_witness :
  let opts := Some {| UseServerStats.endpoint := None; UseServerStats.channel := None;
                      UseServerStats.maxHistory := Some 2%Q;
                      UseServerStats.staleTimeout := None |} in
  let events := [Hook.Message nat 7; Hook.FetchSettled nat false Rejected;
                 Hook.Message nat 8; Hook.Message nat 9] in
  last (Hook.historyRef nat (Hook.run nat (fun n => inject_Z (Z.of_nat n)) opts events))
  = Some 9.
Proof.
  intros opts events.
  rewrite (hook_history_ends_with_stats nat (fun n => inject_Z (Z.of_nat n)) opts).
  - reflexivity.
  - vm_compute. discriminate.
Defined.

(** ** The collectors on every path *)

(** X5: Whatever the import and the external system do, [collect()] of the
    queue, db-pool and app collectors returns normally, with the keys of
    its success path in their order. *)
Theorem collectors_never_throw (s : Source) :
  exists fragment,
    source_collect s = Ok fragment /\ keys fragment = source_keys s.
Proof. apply source_collect_total. Qed.

(** X6: The queue collector either meets one of its failures and returns
    zeros, or every step succeeded and it reports the job counts (0 for a
    count BullMQ leaves out) and the number of workers. *)
Theorem queue_collect_cases (opts : QueueCollector.QueueCollectorOptions)
    (w : Promise QueueCollector.Bullmq) :
  (QueueCollector.Failure opts w /\
   collect (QueueCollector.queueCollector opts) w
     = Ok (zeros QueueCollector.success_keys)) \/
  (exists bullmq queue counts workers,
     w = Fulfilled bullmq /\
     QueueCollector.new_Queue bullmq (QueueCollector.queueName opts ?? "default")
       (QueueCollector.connection opts) = Ok queue /\
     QueueCollector.getJobCounts queue = Fulfilled counts /\
     QueueCollector.getWorkers queue = Fulfilled workers /\
     QueueCollector.close queue = Fulfilled tt /\
     collect (QueueCollector.queueCollector opts) w
       = Ok [("queueActive", QueueCollector.active counts ?? 0%Q);
             ("queueWaiting", QueueCollector.waiting counts ?? 0%Q);
             ("queueDelayed", QueueCollector.delayed counts ?? 0%Q);
             ("queueFailed", QueueCollector.failed counts ?? 0%Q);
             ("queueWorkerCount", inject_Z (Z.of_nat (length workers)))]).
Proof.
  assert (Hz : forall F : QueueCollector.Failure opts w,
             QueueCollector.Failure opts w /\
             collect (QueueCollector.queueCollector opts) w
               = Ok (zeros QueueCollector.success_keys)).
  { intros F. split; [exact F | apply queue_failure_zeros, F]. }
  destruct w as [bullmq|]; [|left; apply Hz; constructor].
  destruct (QueueCollector.new_Queue bullmq (QueueCollector.queueName opts ?? "default")
              (QueueCollector.connection opts)) as [queue|] eqn:Eq;
    [|left; apply Hz; apply QueueCollector.constructor_threw, Eq].
  destruct (QueueCollector.getJobCounts queue) as [counts|] eqn:Ec;
    [|left; apply Hz; eapply QueueCollector.getJobCounts_rejected; eassumption].
  destruct (QueueCollector.getWorkers queue) as [workers|] eqn:Ew;
    [|left; apply Hz; eapply QueueCollector.getWorkers_rejected; eassumption].
  destruct (QueueCollector.close queue) as [[]|] eqn:Ecl;
    [|left; apply Hz; eapply QueueCollector.close_rejected; eassumption].
  right. exists bullmq, queue, counts, workers.
  repeat (split; [first [reflexivity | assumption]|]).
  unfold QueueCollector.queueCollector; simpl. rewrite Eq; simpl.
  rewrite Ec, Ew; simpl. rewrite Ecl. reflexivity.
Qed.

(** X8: The db-pool collector either finds its dependency unusable and returns
    zeros, or it reports the three counters (0 for a counter the pool does
    not offer or that returns nothing) and [max] (0 when absent). *)
Theorem db_pool_collect_cases (opts : option DbPoolCollector.DbPoolCollectorOptions)
    (w : Promise DbPoolCollector.Db) :
  (DbPoolCollector.Failure opts w /\
   collect (DbPoolCollector.dbPoolCollector opts) w
     = Ok (zeros DbPoolCollector.success_keys)) \/
  (exists db p used free pending,
     w = Fulfilled db /\
     DbPoolCollector.lookup_pool db opts = Ok (Some p) /\
     DbPoolCollector.call_or_zero (DbPoolCollector.numUsed p) = Ok used /\
     DbPoolCollector.call_or_zero (DbPoolCollector.numFree p) = Ok free /\
     DbPoolCollector.call_or_zero (DbPoolCollector.numPendingAcquires p) = Ok pending /\
     collect (DbPoolCollector.dbPoolCollector opts) w
       = Ok [("dbPoolUsed", used); ("dbPoolFree", free);
             ("dbPoolPending", pending);
             ("dbPoolMax", DbPoolCollector.max p ?? 0%Q)]).
Proof.
  assert (Hz : forall F : DbPoolCollector.Failure opts w,
             DbPoolCollector.Failure opts w /\
             collect (DbPoolCollector.dbPoolCollector opts) w
               = Ok (zeros DbPoolCollector.success_keys)).
  { intros F. split; [exact F | apply db_pool_failure_zeros, F]. }
  destruct w as [db|]; [|left; apply Hz; constructor].
  destruct (DbPoolCollector.lookup_pool db opts) as [[p|]|] eqn:Ep.
  - destruct (call_or_zero_cases (DbPoolCollector.numUsed p)) as [[_ Hu] | [used Hu]];
      [left; apply Hz; eapply DbPoolCollector.counter_threw; eauto|].
    destruct (call_or_zero_cases (DbPoolCollector.numFree p)) as [[_ Hf] | [free Hf]];
      [left; apply Hz; eapply DbPoolCollector.counter_threw; eauto|].
    destruct (call_or_zero_cases (DbPoolCollector.numPendingAcquires p))
      as [[_ Hp] | [pending Hp]];
      [left; apply Hz; eapply DbPoolCollector.counter_threw; eauto|].
    right. exists db, p, used, free, pending.
    repeat (split; [first [reflexivity | assumption]|]).
    unfold DbPoolCollector.lookup_pool in Ep.
    unfold DbPoolCollector.dbPoolCollector; simpl.
    destruct (DbPoolCollector.manager_get db _) as [c|]; [|discriminate].
    injection Ep as Ep. simpl.
    destruct c as [c|]; [|discriminate]. simpl in Ep. rewrite Ep.
    rewrite Hu; simpl. rewrite Hf; simpl. rewrite Hp. reflexivity.
  - left. apply Hz. apply DbPoolCollector.pool_missing, Ep.
  - left. apply Hz. apply DbPoolCollector.manager_threw.
    unfold DbPoolCollector.lookup_pool in Ep.
    destruct (DbPoolCollector.manager_get db _); [discriminate | reflexivity].
Qed.

(** X9: The db-pool collector looks at the configured connection only
    (['postgres'] unless named otherwise): databases that answer alike for
    that name give the same fragment, whatever their other connections
    do. *)
Theorem db_pool_reads_one_connection
    (opts : option DbPoolCollector.DbPoolCollectorOptions)
    (db1 db2 : DbPoolCollector.Db)
    (H : DbPoolCollector.manager_get db1
           ((opts ≫= DbPoolCollector.connectionName) ?? "postgres")
         = DbPoolCollector.manager_get db2
             ((opts ≫= DbPoolCollector.connectionName) ?? "postgres")) :
  collect (DbPoolCollector.dbPoolCollector opts) (Fulfilled db1)
  = collect (DbPoolCollector.dbPoolCollector opts) (Fulfilled db2).
Proof.
  unfold DbPoolCollector.dbPoolCollector; simpl. rewrite H. reflexivity.
Qed.

(** X10: The app collector either fails as a whole and returns zeros, or the
    [sessions] query fulfilled and each metric comes from its own query
    alone: its total (0 without a row or a total), and for
    [pendingWebhooks] and [pendingEmails] 0 when that query rejected,
    whatever the other queries did. *)
Theorem app_collect_cases (w : Promise AppCollector.Db) :
  (AppCollector.OuterFailure w /\
   collect AppCollector.appCollector w = Ok (zeros AppCollector.success_keys)) \/
  (exists db r1 q2 q3,
     w = Fulfilled db /\
     AppCollector.count_first db "sessions" None = Ok (Fulfilled r1) /\
     AppCollector.count_first db "webhook_events" (Some ("status", "pending")) = Ok q2 /\
     AppCollector.count_first db "scheduled_emails" (Some ("status", "pending")) = Ok q3 /\
     collect AppCollector.appCollector w
       = Ok [("onlineUsers", (r1 ≫= AppCollector.total) ?? 0%Q);
             ("pendingWebhooks",
               match q2 with
               | Fulfilled r2 => (r2 ≫= AppCollector.total) ?? 0%Q
               | Rejected => 0%Q
               end);
             ("pendingEmails",
               match q3 with
               | Fulfilled r3 => (r3 ≫= AppCollector.total) ?? 0%Q
               | Rejected => 0%Q
               end)]).
Proof.
  assert (Hz : forall F : AppCollector.OuterFailure w,
             AppCollector.OuterFailure w /\
             collect AppCollector.appCollector w = Ok (zeros AppCollector.success_keys)).
  { intros F. split; [exact F | apply app_outer_failure_zeros, F]. }
  destruct w as [db|]; [|left; apply Hz; constructor].
  destruct (AppCollector.sessions_query db) as [[r1|]|] eqn:E1;
    [| left; apply Hz; apply AppCollector.outer_sessions; right; exact E1
     | left; apply Hz; apply AppCollector.outer_sessions; left; exact E1].
  destruct (AppCollector.webhooks_query db) as [q2|] eqn:E2;
    [|left; apply Hz; apply AppCollector.outer_webhooks_threw, E2].
  destruct (AppCollector.emails_query db) as [q3|] eqn:E3;
    [|left; apply Hz; apply AppCollector.outer_emails_threw, E3].
  right. exists db, r1, q2, q3.
  repeat (split; [first [reflexivity | assumption]|]).
  apply (app_collect_built db (Fulfilled r1) q2 q3 E1 E2 E3).
Qed.

Lemma db_pool_reads_one_connection_witness :
  collect (DbPoolCollector.dbPoolCollector None) (Fulfilled db_postgres_only)
  = collect (DbPoolCollector.dbPoolCollector None) (Fulfilled db_postgres_else_throws).
Proof.
  apply db_pool_reads_one_connection. reflexivity.
Defined.

(** ** The queue created for a tick *)

Lemma collect_with_calls_result opts w :
  snd (QueueCalls.collect_with_calls opts w)
  = collect (QueueCollector.queueCollector opts) w.
Proof.
  unfold QueueCalls.collect_with_calls, QueueCollector.queueCollector; simpl.
  destruct w as [bullmq|]; simpl; [|reflexivity].
  destruct (QueueCollector.new_Queue bullmq _ _) as [queue|]; simpl; [|reflexivity].
  destruct (QueueCollector.getJobCounts queue), (QueueCollector.getWorkers queue);
    simpl; try reflexivity.
  destruct (QueueCollector.close queue); reflexivity.
Qed.

(** [Close] is not among calls that are all something else. *)
Ltac close_absent Hin :=
  repeat (apply elem_of_cons in Hin as [Hin | Hin]; [discriminate Hin|]);
  apply elem_of_nil in Hin; destruct Hin.

(** X7: The calls recorded beside [collect()] do not change its result.  The
    queue constructed for a tick is closed exactly when both fetches
    fulfilled; when one of them rejects, the calls end with the two
    fetches and the queue is left open. *)
Theorem queue_closed_only_after_fetches
    (opts : QueueCollector.QueueCollectorOptions) (w : Promise QueueCollector.Bullmq) :
  let queueName := QueueCollector.queueName opts ?? "default" in
  let calls := fst (QueueCalls.collect_with_calls opts w) in
  snd (QueueCalls.collect_with_calls opts w)
    = collect (QueueCollector.queueCollector opts) w /\
  (QueueCalls.Close ∈ calls <->
     exists bullmq queue counts workers,
       w = Fulfilled bullmq /\
       QueueCollector.new_Queue bullmq queueName (QueueCollector.connection opts)
         = Ok queue /\
       QueueCollector.getJobCounts queue = Fulfilled counts /\
       QueueCollector.getWorkers queue = Fulfilled workers) /\
  (forall bullmq queue,
     w = Fulfilled bullmq ->
     QueueCollector.new_Queue bullmq queueName (QueueCollector.connection opts)
       = Ok queue ->
     QueueCollector.getJobCounts queue = Rejected \/
       QueueCollector.getWorkers queue = Rejected ->
     calls = [QueueCalls.ImportBullmq;
              QueueCalls.NewQueue queueName (QueueCollector.connection opts);
              QueueCalls.GetJobCounts; QueueCalls.GetWorkers]).
Proof.
  intros queueName calls. split; [apply collect_with_calls_result|].
  subst calls. unfold QueueCalls.collect_with_calls. fold queueName.
  destruct w as [bullmq|]; simpl.
  2:{ split; [split|].
      - intros Hin. close_absent Hin.
      - intros (b & q & c & ws & Hw & _). discriminate.
      - intros b q Hw. discriminate. }
  destruct (QueueCollector.new_Queue bullmq queueName (QueueCollector.connection opts))
    as [queue|] eqn:Eq; simpl.
  2:{ split; [split|].
      - intros Hin. close_absent Hin.
      - intros (b & q & c & ws & Hw & Hq & _). injection Hw as <-. congruence.
      - intros b q Hw Hq. injection Hw as <-. congruence. }
  assert (Hsame : forall b q,
            Fulfilled bullmq = Fulfilled b ->
            QueueCollector.new_Queue b queueName (QueueCollector.connection opts) = Ok q ->
            q = queue).
  { intros b q Hw Hq. injection Hw as <-. congruence. }
  destruct (QueueCollector.getJobCounts queue) as [counts|] eqn:Ec,
           (QueueCollector.getWorkers queue) as [workers|] eqn:Ew; simpl.
  - assert (Hclose : QueueCalls.Close
              ∈ [QueueCalls.ImportBullmq;
                 QueueCalls.NewQueue queueName (QueueCollector.connection opts);
                 QueueCalls.GetJobCounts; QueueCalls.GetWorkers; QueueCalls.Close]).
    { rewrite !elem_of_cons. tauto. }
    destruct (QueueCollector.close queue) as [[]|]; simpl;
      (split; [split|];
       [ intros _; exists bullmq, queue, counts, workers; repeat split; assumption
       | intros _; exact Hclose
       | intros b q Hw Hq [Hr | Hr]; rewrite (Hsame b q Hw Hq) in Hr; congruence ]).
  - split; [split|]; [intros Hin; close_absent Hin | | reflexivity].
    intros (b & q & c & ws & Hw & Hq & _ & Hws).
    rewrite (Hsame b q Hw Hq) in Hws. congruence.
  - split; [split|]; [intros Hin; close_absent Hin | | reflexivity].
    intros (b & q & c & ws & Hw & Hq & Hc & _).
    rewrite (Hsame b q Hw Hq) in Hc. congruence.
  - split; [split|]; [intros Hin; close_absent Hin | | reflexivity].
    intros (b & q & c & ws & Hw & Hq & Hc & _).
    rewrite (Hsame b q Hw Hq) in Hc. congruence.
Qed.

Lemma queue_closed_only_after_fetches_witness :
  fst (QueueCalls.collect_with_calls local_queue (Fulfilled bullmq_unreachable))
  = [QueueCalls.ImportBullmq;
     QueueCalls.NewQueue "default" (QueueCollector.connection local_queue);
     QueueCalls.GetJobCounts; QueueCalls.GetWorkers].
Proof.
  destruct (queue_closed_only_after_fetches local_queue (Fulfilled bullmq_unreachable))
    as (_ & _ & Hopen).
  eapply Hopen; [reflexivity | reflexivity | left; reflexivity].
Defined.

(** ** Log collectors side by side *)

Lemma collect_fragment c now p :
  fst <$> LogCollector.collect c now p
  = (fun s => LogCollector.fragment_of (fst (LogStreamService.getLogStats now s)))
      <$> LogCollector.heap p !! LogCollector.service c.
Proof.
  unfold LogCollector.collect.
  destruct (LogCollector.heap p !! LogCollector.service c) as [s|]; reflexivity.
Qed.

Lemma apply_heap_other op c p :
  LogCollector.service c < length (LogCollector.heap p) ->
  ~ LogOps.targets op c ->
  LogCollector.heap (LogOps.apply op p) !! LogCollector.service c
  = LogCollector.heap p !! LogCollector.service c.
Proof.
  intros Hc Hop. destruct op as [opts | c' | c' | c' now']; simpl in *.
  - apply lookup_app_l, Hc.
  - apply list_lookup_alter_ne. exact Hop.
  - apply list_lookup_alter_ne. exact Hop.
  - unfold LogCollector.collect.
    destruct (LogCollector.heap p !! LogCollector.service c') as [s|]; simpl;
      [|reflexivity].
    apply list_lookup_insert_ne. exact Hop.
Qed.

Lemma apply_shared op p :
  match op with
  | LogOps.Create opts =>
      LogCollector.getLogStreamService (LogOps.apply op p)
      = Some (length (LogCollector.heap p))
  | _ =>
      LogCollector.getLogStreamService (LogOps.apply op p)
      = LogCollector.getLogStreamService p
  end.
Proof.
  destruct op as [opts | c' | c' | c' now']; simpl; try reflexivity.
  unfold LogCollector.collect.
  destruct (LogCollector.heap p !! LogCollector.service c'); reflexivity.
Qed.

(** X11: A collector is affected by calls of its own methods only: creating
    another log collector, or starting, stopping or collecting from one,
    leaves its analyzer as it was and does not change what its [collect()]
    returns.  Only [logCollector()] changes what [getLogStreamService()]
    returns; no method of a collector does. *)
Theorem log_collectors_isolated (op : LogOps.Op)
    (c : LogCollector.LogMetricCollector) (p : LogCollector.Process)
    (Hc : LogCollector.service c < length (LogCollector.heap p))
    (Hop : ~ LogOps.targets op c) :
  LogCollector.heap (LogOps.apply op p) !! LogCollector.service c
    = LogCollector.heap p !! LogCollector.service c /\
  (forall now,
     fst <$> LogCollector.collect c now (LogOps.apply op p)
     = fst <$> LogCollector.collect c now p) /\
  (forall op' p',
     (forall opts, op' <> LogOps.Create opts) ->
     LogCollector.getLogStreamService (LogOps.apply op' p')
     = LogCollector.getLogStreamService p').
Proof.
  split; [apply apply_heap_other; assumption|]. split.
  - intros now. rewrite !collect_fragment, apply_heap_other by assumption.
    reflexivity.
  - intros op' p' Hmethod. pose proof (apply_shared op' p') as Hs.
    destruct op' as [opts | c' | c' | c' now']; try exact Hs.
    destruct (Hmethod opts). reflexivity.
Qed.

Lemma log_collectors_isolated_witness :
  let first := LogCollector.logCollector {| LogCollector.logPath := "logs/app.log" |}
                 LogCollector.initial in
  let second := LogCollector.logCollector {| LogCollector.logPath := "logs/jobs.log" |}
                  (snd first) in
  fst <$> LogCollector.collect (fst first) 1000%Z
            (LogOps.apply (LogOps.Start (fst second)) (snd second))
  = fst <$> LogCollector.collect (fst first) 1000%Z (snd second).
Proof.
  intros first second.
  refine (proj1 (proj2 (log_collectors_isolated (LogOps.Start (fst second))
                          (fst first) (snd second) _ _)) 1000%Z).
  - simpl. lia.
  - simpl. lia.
Defined.

(** ** The scheduler's ticks *)













